(** * The neighbor cache engine of fboss/agent/NeighborCacheImpl-defs.h

    A shallow embedding of [NeighborCacheImpl<NTable>]: the cache map of
    neighbor entries, the transforms it submits to the switch-state tree,
    and the properties of the cache operations.

    The cache map [entries_] and the node maps of the switch state are
    finite maps (stdpp [gmap]).  The member functions of the cache thread
    the cache object through an error monad: a [CHECK] that fires, a null
    pointer that is dereferenced and an exception are results of their
    own. *)

From stdpp Require Import gmap list fin_maps.

Set Default Proof Using "Type".

(** ** Identifiers *)

(** [AddressType] is the table's address type (IPv4 or IPv6 address);
    [folly::MacAddress] is a 48-bit value; [PortID], [VlanID] and
    [InterfaceID] are integer identifiers. *)
Abbreviation AddressType := N (only parsing).
Abbreviation MacAddress := N (only parsing).
Abbreviation PortID := N (only parsing).
Abbreviation VlanID := N (only parsing).
Abbreviation InterfaceID := N (only parsing).

(** ** Results of fallible code *)

Inductive Failure : Type :=
| CheckFailed   (* a CHECK(...) whose condition is false *)
| NullDeref     (* a member call through a null pointer *)
| FbossError    (* an exception thrown by a throwing accessor *)
| DanglingWrite. (* a write through a reference to a local of a call that
                    has returned: undefined behaviour *)

Inductive Result (A : Type) : Type :=
| Ok (a : A)
| Err (e : Failure).
Arguments Ok {A} a.
Arguments Err {A} e.

(** ** Neighbor entry fields, cache entries *)

(** Modelled from the spec: the lifecycle states of an entry
    (NeighborEntryState is declared outside this file). *)
Inductive NeighborEntryState : Type :=
| PENDING | INCOMPLETE | REACHABLE | STALE | PROBE | EXPIRED.

#[global] Instance NeighborEntryState_eq_dec : EqDecision NeighborEntryState.
Proof. solve_decision. Defined.

(** The fields of an entry as this file reads them: [fields.ip],
    [fields.mac], [fields.port], [fields.interfaceID], and the pending flag
    behind [isPending()]. *)
Record NeighborEntryFields : Type := MkFields {
  ip : AddressType;
  mac : MacAddress;
  port : PortID;
  interfaceID : InterfaceID;
  pending : bool
}.

#[global] Instance NeighborEntryFields_eq_dec : EqDecision NeighborEntryFields.
Proof. solve_decision. Defined.

(** Modelled from the spec: the constructor [EntryFields(ip, mac, port,
    interfaceID)] of the class NeighborEntryFields, declared outside this
    file: a resolved binding. *)
Definition EntryFields (a : AddressType) (m : MacAddress) (p : PortID)
    (intf : InterfaceID) : NeighborEntryFields :=
  {| ip := a; mac := m; port := p; interfaceID := intf; pending := false |}.

(** Modelled from the spec: the constructor [EntryFields(ip, interfaceID,
    PENDING)], declared outside this file: a pending binding has no learned
    link-layer address (the MAC is cleared) and no egress port. *)
Definition EntryFieldsPending (a : AddressType) (intf : InterfaceID)
    : NeighborEntryFields :=
  {| ip := a; mac := 0%N; port := 0%N; interfaceID := intf; pending := true |}.

(** Modelled from the spec: the class NeighborCacheEntry is declared outside
    this file.  An entry holds its fields and its lifecycle state; its timer
    and its pointers to the event base and to the cache are not modelled. *)
Record NeighborCacheEntry : Type := MkEntry {
  fields_ : NeighborEntryFields;
  state_ : NeighborEntryState
}.

Definition getFields (e : NeighborCacheEntry) : NeighborEntryFields := fields_ e.
Definition getIP (e : NeighborCacheEntry) : AddressType := ip (fields_ e).
Definition getMac (e : NeighborCacheEntry) : MacAddress := mac (fields_ e).
Definition getPortID (e : NeighborCacheEntry) : PortID := port (fields_ e).
Definition getState (e : NeighborCacheEntry) : NeighborEntryState := state_ e.
Definition isPending (e : NeighborCacheEntry) : bool := pending (fields_ e).

(** Modelled from the spec: NeighborCacheEntry::fieldsMatch, declared
    outside this file.  The comparison ignores the immutable identity fields
    (address and interface) and compares the MAC, the port and the pending
    flag. *)
Definition fieldsMatch (e : NeighborCacheEntry) (f : NeighborEntryFields) : bool :=
  (mac (fields_ e) =? mac f)%N && (port (fields_ e) =? port f)%N
  && Bool.eqb (pending (fields_ e)) (pending f).

(** Modelled from the spec: NeighborCacheEntry::updateFields, declared
    outside this file: the entry takes the requested fields. *)
Definition updateFields (e : NeighborCacheEntry) (f : NeighborEntryFields)
    : NeighborCacheEntry :=
  {| fields_ := f; state_ := state_ e |}.

(** Modelled from the spec: NeighborCacheEntry::updateState, declared
    outside this file: the entry takes the requested lifecycle state (the
    timer it rearms is not modelled). *)
Definition updateState (e : NeighborCacheEntry) (s : NeighborEntryState)
    : NeighborCacheEntry :=
  {| fields_ := fields_ e; state_ := s |}.

(** ** The switch state tree *)

(** Modelled from the spec: the neighbor table of a VLAN (ArpTable or
    NdpTable, declared outside this file) is a node map from address to
    node; a node carries the entry fields. *)
Abbreviation NTable := (gmap N NeighborEntryFields) (only parsing).

Definition getNodeIf (a : AddressType) (table : NTable) : option NeighborEntryFields :=
  table !! a.
Definition addEntry (f : NeighborEntryFields) (table : NTable) : NTable :=
  <[ip f := f]> table.
Definition updateEntry (f : NeighborEntryFields) (table : NTable) : NTable :=
  <[ip f := f]> table.
Definition removeEntry_table (a : AddressType) (table : NTable) : NTable :=
  delete a table.
Definition addPendingEntry (a : AddressType) (intf : InterfaceID) (table : NTable)
    : NTable :=
  <[a := EntryFieldsPending a intf]> table.
Definition removeNode (a : AddressType) (table : NTable) : NTable :=
  delete a table.

Record Vlan : Type := MkVlan {
  neighborTable : gmap N NeighborEntryFields
}.

(** Modelled from the spec: a snapshot of the switch state (SwitchState is
    declared outside this file) maps VLAN ids to VLANs; the interface
    configuration is consumed only through the capability "is this address
    on a locally attached subnet of this interface". *)
Record SwitchState : Type := MkSwitchState {
  vlans : gmap N Vlan;
  attached : AddressType -> InterfaceID -> bool
}.

(** [getVlans()->getVlanIf(id)]: null when the VLAN does not exist. *)
Definition getVlanIf (id : VlanID) (state : SwitchState) : option Vlan :=
  vlans state !! id.

(** Modelled from the spec: [getVlans()->getVlan(id)], declared outside this
    file, is the accessor without the [If]: its callers use the result
    without a null test (flushEntryFromSwitchState dereferences it at once),
    so a missing VLAN is a failure of the lookup, not a null result. *)
Definition getVlan (id : VlanID) (state : SwitchState) : Result Vlan :=
  match vlans state !! id with
  | Some v => Ok v
  | None => Err FbossError
  end.

(** Modelled from the spec: Interface::isIpAttached, declared outside this
    file. *)
Definition isIpAttached (a : AddressType) (intf : InterfaceID)
    (state : SwitchState) : bool :=
  attached state a intf.

(** [table->modify(&vlan, &newState)] followed by the mutation of the
    cloned table: the new snapshot holds the VLAN with the new table. *)
Definition modify (vlanID : VlanID) (table : NTable) (state : SwitchState)
    : SwitchState :=
  {| vlans := <[vlanID := {| neighborTable := table |}]> (vlans state);
     attached := attached state |}.

(** The node of an address in the neighbor table of a VLAN of a snapshot. *)
Definition nodeOf (vlanID : VlanID) (a : AddressType) (state : SwitchState)
    : option NeighborEntryFields :=
  match getVlanIf vlanID state with
  | Some vlan => getNodeIf a (neighborTable vlan)
  | None => None
  end.

(** A transform submitted to the switch: a new snapshot, null (no-op), or
    an exception. *)
Abbreviation StateUpdateFn := (SwitchState -> Result (option SwitchState)) (only parsing).

Module ncachehelpers.

Definition checkVlanAndIntf (state : SwitchState) (f : NeighborEntryFields)
    (vlanID : VlanID) : bool :=
  match getVlanIf vlanID state with
  | None => false
  | Some _ =>
      if negb (isIpAttached (ip f) (interfaceID f) state) then false
      else true
  end.

End ncachehelpers.

(** The [updateFn] of programEntry. *)
Definition programEntry_updateFn (f : NeighborEntryFields) (vlanID : VlanID)
    : StateUpdateFn := fun state =>
  if negb (ncachehelpers.checkVlanAndIntf state f vlanID) then Ok None
  else
    match getVlanIf vlanID state with
    | None => Err NullDeref
    | Some vlan =>
        let table := neighborTable vlan in
        match getNodeIf (ip f) table with
        | None => Ok (Some (modify vlanID (addEntry f table) state))
        | Some node =>
            if (mac node =? mac f)%N && (port node =? port f)%N
               && (interfaceID node =? interfaceID f)%N
               && negb (pending node)
            then Ok None
            else Ok (Some (modify vlanID (updateEntry f table) state))
        end
    end.

(** The [updateFn] of programPendingEntry. *)
Definition programPendingEntry_updateFn (f : NeighborEntryFields)
    (vlanID : VlanID) (force : bool) : StateUpdateFn := fun state =>
  if negb (ncachehelpers.checkVlanAndIntf state f vlanID) then Ok None
  else
    match getVlanIf vlanID state with
    | None => Err NullDeref
    | Some vlan =>
        let table := neighborTable vlan in
        match getNodeIf (ip f) table with
        | Some _ =>
            if negb force then Ok None
            else Ok (Some (modify vlanID
                   (addPendingEntry (ip f) (interfaceID f)
                      (removeEntry_table (ip f) table)) state))
        | None =>
            Ok (Some (modify vlanID
                 (addPendingEntry (ip f) (interfaceID f) table) state))
        end
    end.

(** flushEntryFromSwitchState after its [DCHECK]: the result and the new
    snapshot.  The [DCHECK(!getCacheEntry(ip))] reads the cache map, not the
    snapshot: it is in [flushEntry_closure] below. *)
Definition flushEntryFromSwitchState (state : SwitchState) (vlanID : VlanID)
    (vlan : Vlan) (a : AddressType) : bool * SwitchState :=
  let table := neighborTable vlan in
  match getNodeIf a table with
  | None => (false, state)
  | Some _ => (true, modify vlanID (removeNode a table) state)
  end.

(** The [updateFn] of flushEntry as the blocking call runs it: the address
    has just left the cache map and the local [flushed] is live. *)
Definition flushEntry_updateFn (vlanID : VlanID) (a : AddressType)
    : StateUpdateFn := fun state =>
  match getVlan vlanID state with
  | Err e => Err e
  | Ok vlan =>
      let '(flushed, newState) := flushEntryFromSwitchState state vlanID vlan a in
      if flushed then Ok (Some newState) else Ok None
  end.

(** The [updateFn] of flushEntry with what it reads and writes outside the
    snapshot.  It captures [this] and, by reference, the local [flushed] of
    the call of flushEntry that made it.
    - [cached]: whether [getCacheEntry(ip)] is non-null when the closure is
      applied; the [DCHECK] at the head of flushEntryFromSwitchState fails
      then (it comes after [getVlan]).
    - [frameLive]: whether that call of flushEntry is still in progress
      when the closure is applied; [flushed = true] is written when a node
      was found, and through a dangling reference when the call has
      returned. *)
Definition flushEntry_closure (cached frameLive : bool) (vlanID : VlanID)
    (a : AddressType) : StateUpdateFn := fun state =>
  match getVlan vlanID state with
  | Err e => Err e
  | Ok vlan =>
      if cached then Err CheckFailed
      else
        let '(flushed, newState) := flushEntryFromSwitchState state vlanID vlan a in
        if flushed then
          if frameLive then Ok (Some newState) else Err DanglingWrite
        else Ok None
  end.

(** The closure as the fire-and-forget call leaves it in the queue:
    [updateState] returns at once and flushEntry returns [true], so the
    closure is applied when the local [flushed] is gone.  The queue of the
    model holds functions of the snapshot, which cannot read the cache map
    of the moment they are applied: the [DCHECK] of a queued closure is
    taken to pass. *)
Definition flushEntry_updateFn_queued (vlanID : VlanID) (a : AddressType)
    : StateUpdateFn :=
  flushEntry_closure false false vlanID a.

(** ** The switch and its update queue *)

(** Modelled from the spec: SwSwitch is declared outside this file.  It
    holds the latest snapshot and the transforms that were submitted and are
    not applied yet; transforms are applied one after the other, each to the
    snapshot its predecessor left. *)
Record SwSwitch : Type := MkSwSwitch {
  swState : SwitchState;
  swUpdates : list (SwitchState -> Result (option SwitchState))
}.

(** One transform applied to the latest snapshot: whether it produced a new
    snapshot, and the snapshot afterwards (null leaves it as it is). *)
Definition applyUpdate (fn : StateUpdateFn) (state : SwitchState)
    : Result (bool * SwitchState) :=
  match fn state with
  | Ok (Some newState) => Ok (true, newState)
  | Ok None => Ok (false, state)
  | Err e => Err e
  end.

Fixpoint applyUpdates (fns : list (SwitchState -> Result (option SwitchState)))
    (state : SwitchState) : Result SwitchState :=
  match fns with
  | [] => Ok state
  | fn :: rest =>
      match applyUpdate fn state with
      | Ok (_, state') => applyUpdates rest state'
      | Err e => Err e
      end
  end.

(** Modelled from the spec: [sw_->updateState(name, fn)], fire-and-forget:
    the transform is queued and the call returns. *)
Definition SwSwitch_updateState (fn : StateUpdateFn) (sw : SwSwitch) : SwSwitch :=
  {| swState := swState sw; swUpdates := swUpdates sw ++ [fn] |}.

(** Modelled from the spec: [sw_->updateStateBlocking(name, fn)] returns
    only after the transform is committed: the transforms queued before it
    are applied, then this one.  The boolean is whether this transform
    produced a new snapshot. *)
Definition SwSwitch_updateStateBlocking (fn : StateUpdateFn) (sw : SwSwitch)
    : Result (bool * SwSwitch) :=
  match applyUpdates (swUpdates sw) (swState sw) with
  | Err e => Err e
  | Ok state1 =>
      match applyUpdate fn state1 with
      | Err e => Err e
      | Ok (changed, state2) =>
          Ok (changed, {| swState := state2; swUpdates := [] |})
      end
  end.

(** ** The cache object and its monad *)

Record NeighborCacheImpl : Type := MkCache {
  entries_ : gmap N NeighborCacheEntry;
  vlanID_ : VlanID;
  intfID_ : InterfaceID;
  sw_ : SwSwitch
}.

Definition M (A : Type) : Type := NeighborCacheImpl -> Result (A * NeighborCacheImpl).

Definition ret {A} (a : A) : M A := fun c => Ok (a, c).

Definition bind {A B} (m : M A) (k : A -> M B) : M B := fun c =>
  match m c with
  | Ok (a, c') => k a c'
  | Err e => Err e
  end.

Definition fail {A} (e : Failure) : M A := fun _ => Err e.

Declare Scope cache_scope.
Delimit Scope cache_scope with cache.
Notation "'let*' x ':=' m 'in' k" := (bind m (fun x => k))
  (at level 10, x name, m at level 100, k at level 200) : cache_scope.
Notation "'do*' m 'in' k" := (bind m (fun _ => k))
  (at level 10, m at level 100, k at level 200) : cache_scope.
Open Scope cache_scope.

(** [CHECK(cond)]. *)
Definition CHECK (cond : bool) : M unit :=
  if cond then ret tt else fail CheckFailed.

(** A loop over a container: the body runs once per item, in order. *)
Fixpoint forEach {A} (items : list A) (body : A -> M unit) : M unit :=
  match items with
  | [] => ret tt
  | item :: rest => do* body item in forEach rest body
  end.

Definition setEntries (entries : gmap N NeighborCacheEntry) : M unit := fun c =>
  Ok (tt, {| entries_ := entries; vlanID_ := vlanID_ c; intfID_ := intfID_ c;
             sw_ := sw_ c |}).

Definition updateSw (f : SwSwitch -> SwSwitch) : M unit := fun c =>
  Ok (tt, {| entries_ := entries_ c; vlanID_ := vlanID_ c; intfID_ := intfID_ c;
             sw_ := f (sw_ c) |}).

(** ** The member functions of NeighborCacheImpl *)

Definition getCacheEntry (a : AddressType) : M (option NeighborCacheEntry) :=
  fun c => Ok (entries_ c !! a, c).

Definition setCacheEntry (entry : NeighborCacheEntry) : M unit := fun c =>
  setEntries (<[getIP entry := entry]> (entries_ c)) c.

(** A mutation through the pointer to the entry stored under [a]: the
    entry object stays where it is and takes the new contents. *)
Definition writeEntry (a : AddressType) (entry : NeighborCacheEntry) : M unit :=
  fun c => setEntries (<[a := entry]> (entries_ c)) c.

(** The entry pointer is passed as the contents of the entry at the call. *)
Definition programEntry (entry : NeighborCacheEntry) : M unit :=
  do* CHECK (negb (isPending entry)) in
  let fields := getFields entry in
  fun c =>
    let vlanID := vlanID_ c in
    updateSw (SwSwitch_updateState (programEntry_updateFn fields vlanID)) c.

Definition programPendingEntry (entry : NeighborCacheEntry) (force : bool) : M unit :=
  do* CHECK (isPending entry) in
  let fields := getFields entry in
  fun c =>
    let vlanID := vlanID_ c in
    updateSw (SwSwitch_updateState
                (programPendingEntry_updateFn fields vlanID force)) c.

(** The result is the entry pointer: [None] is the null pointer. *)
Definition setEntryInternal (fields : NeighborEntryFields)
    (state : NeighborEntryState) (add : bool) : M (option NeighborCacheEntry) :=
  let* entry := getCacheEntry (ip fields) in
  match entry with
  | Some e =>
      let e1 := if negb (fieldsMatch e fields) then updateFields e fields else e in
      let e2 := updateState e1 state in
      do* writeEntry (ip fields) e2 in
      ret (Some e2)
  | None =>
      if add then
        let to_store := {| fields_ := fields; state_ := state |} in
        do* setCacheEntry to_store in
        ret (Some to_store)
      else ret None
  end.

(** [setEntryInternal] is called without its third argument: the default of
    [add], declared outside this file, is [true] (setExistingEntry passes
    [false] and tests the result, setEntry does not). *)
Definition setEntry (a : AddressType) (m : MacAddress) (portID : PortID)
    (state : NeighborEntryState) : M unit :=
  fun c =>
    (let* entry := setEntryInternal (EntryFields a m portID (intfID_ c)) state true in
     match entry with
     | Some e => programEntry e
     | None => fail NullDeref
     end) c.

Definition setExistingEntry (a : AddressType) (m : MacAddress) (portID : PortID)
    (state : NeighborEntryState) : M unit :=
  fun c =>
    (let* entry := setEntryInternal (EntryFields a m portID (intfID_ c)) state false in
     match entry with
     | Some e => programEntry e
     | None => ret tt
     end) c.

Definition setPendingEntry (a : AddressType) (force : bool) : M unit :=
  let* existing := getCacheEntry a in
  if negb force && bool_decide (is_Some existing) then ret tt
  else fun c =>
    (let* newEntry := setEntryInternal (EntryFieldsPending a (intfID_ c)) INCOMPLETE true in
     match newEntry with
     | Some e => programPendingEntry e force
     | None => fail NullDeref
     end) c.

(** The body of the loop of repopulate; [it.2] is [*it], a node. *)
Definition repopulate_body (it : N * NeighborEntryFields) : M unit :=
  let entry := it.2 in
  let state := if pending entry then INCOMPLETE else STALE in
  do* setEntryInternal entry state true in ret tt.

Definition repopulate (table : NTable) : M unit :=
  forEach (map_to_list table) repopulate_body.

(** [Entry::destroy] hands the entry to the background thread; the map
    drops it at once. *)
Definition removeEntry (a : AddressType) : M bool := fun c =>
  match entries_ c !! a with
  | None => Ok (false, c)
  | Some _ => (do* setEntries (delete a (entries_ c)) in ret true) c
  end.

(** The blocking call applies the closure while it is in progress: the
    [DCHECK] reads the cache map as it is then, the write to [flushed]
    lands in the live local, and [flushed] is the result.  The
    fire-and-forget call queues the closure and returns [true]. *)
Definition flushEntry (a : AddressType) (blocking : bool) : M bool :=
  let* removed := removeEntry a in
  if negb removed then ret false
  else fun c =>
    if blocking then
      let cached := bool_decide (is_Some (entries_ c !! a)) in
      let updateFn := flushEntry_closure cached true (vlanID_ c) a in
      match SwSwitch_updateStateBlocking updateFn (sw_ c) with
      | Err e => Err e
      | Ok (flushed, sw') => (do* updateSw (fun _ => sw') in ret flushed) c
      end
    else
      let updateFn := flushEntry_updateFn_queued (vlanID_ c) a in
      (do* updateSw (SwSwitch_updateState updateFn) in ret true) c.

Definition flushEntryBlocking (a : AddressType) : M bool := flushEntry a true.

(** The body of the loop of portDown: [item.second] points to the entry
    stored under the key [item.first], and is read through the pointer. *)
Definition portDown_body (p : PortID) (item : N * NeighborCacheEntry) : M unit :=
  let* live := getCacheEntry item.1 in
  match live with
  | None => ret tt
  | Some e =>
      if negb (getPortID e =? p)%N then ret tt
      else setPendingEntry (getIP e) true
  end.

(** The items of the loop are those of the map when the loop starts. *)
Definition portDown (p : PortID) : M unit := fun c =>
  forEach (map_to_list (entries_ c)) (portDown_body p) c.

Section Process.

(** [entry->process()], one step of the state machine of the entry, is
    declared outside this file. *)
Variable process : NeighborCacheEntry -> NeighborCacheEntry.

(** [flushEntry(ip)]: the default of [blocking] is [false]. *)
Definition processEntry (a : AddressType) : M unit :=
  let* entry := getCacheEntry a in
  match entry with
  | Some e =>
      let e' := process e in
      do* writeEntry a e' in
      if bool_decide (getState e' = EXPIRED) then
        do* flushEntry a false in ret tt
      else ret tt
  | None => ret tt
  end.

End Process.

(** ** The public operations as a script *)

Inductive Op : Type :=
| OpSetEntry (a : N) (m : N) (p : N) (state : NeighborEntryState)
| OpSetExistingEntry (a : N) (m : N) (p : N) (state : NeighborEntryState)
| OpSetPendingEntry (a : N) (force : bool)
| OpRepopulate (table : gmap N NeighborEntryFields)
| OpPortDown (p : N).

Definition runOp (op : Op) : M unit :=
  match op with
  | OpSetEntry a m p state => setEntry a m p state
  | OpSetExistingEntry a m p state => setExistingEntry a m p state
  | OpSetPendingEntry a force => setPendingEntry a force
  | OpRepopulate table => repopulate table
  | OpPortDown p => portDown p
  end.

Definition runOps (ops : list Op) : M unit := forEach ops runOp.

(** Every entry of the cache map is stored under its own address, and every
    node of a table under its own address. *)
Definition cache_wf (c : NeighborCacheImpl) : Prop :=
  ∀ a e, entries_ c !! a = Some e → getIP e = a.

Definition table_wf (table : gmap N NeighborEntryFields) : Prop :=
  ∀ a f, table !! a = Some f → ip f = a.

(** The contents of an entry after [setEntryInternal] found it. *)
Definition refreshed (e : NeighborCacheEntry) (f : NeighborEntryFields)
    (state : NeighborEntryState) : NeighborCacheEntry :=
  updateState (if negb (fieldsMatch e f) then updateFields e f else e) state.

(** The cache with another map, and with one more queued transform. *)
Definition withEntries (entries : gmap N NeighborCacheEntry)
    (c : NeighborCacheImpl) : NeighborCacheImpl :=
  {| entries_ := entries; vlanID_ := vlanID_ c; intfID_ := intfID_ c; sw_ := sw_ c |}.

Definition withUpdate (fn : StateUpdateFn) (c : NeighborCacheImpl)
    : NeighborCacheImpl :=
  {| entries_ := entries_ c; vlanID_ := vlanID_ c; intfID_ := intfID_ c;
     sw_ := SwSwitch_updateState fn (sw_ c) |}.

(** The state repopulate seeds an imported node with. *)
Definition seeded (f : NeighborEntryFields) : NeighborEntryState :=
  if pending f then INCOMPLETE else STALE.

(** The entry that [setEntryInternal] with [add] leaves under the address:
    the refreshed one when there was one, a new one otherwise. *)
Definition stored (old : option NeighborCacheEntry) (f : NeighborEntryFields)
    (state : NeighborEntryState) : NeighborCacheEntry :=
  match old with
  | Some e => refreshed e f state
  | None => {| fields_ := f; state_ := state |}
  end.

(** An operation that returns on every well-formed cache and leaves a
    well-formed cache. *)
Definition preserves (m : M unit) : Prop :=
  ∀ c, cache_wf c → ∃ c', m c = Ok (tt, c') ∧ cache_wf c'.

(** The invariant of the cache map as an executable test. *)
Definition cache_wfb (c : NeighborCacheImpl) : bool :=
  forallb (λ item : N * NeighborCacheEntry, (getIP item.2 =? item.1)%N)
    (map_to_list (entries_ c)).

(** The entry [setPendingEntry] with [force] leaves in place of [e], and
    the transform it submits, in a cache of interface [intf] and VLAN
    [vlanID]. *)
Definition pended (intf : N) (e : NeighborCacheEntry) : NeighborCacheEntry :=
  refreshed e (EntryFieldsPending (getIP e) intf) INCOMPLETE.

Definition pendingUpdate (intf vlanID : N) (item : N * NeighborCacheEntry)
    : SwitchState → Result (option SwitchState) :=
  programPendingEntry_updateFn (fields_ (pended intf item.2)) vlanID true.

Definition onPort (p : N) (item : N * NeighborCacheEntry) : Prop :=
  getPortID item.2 = p.

#[global] Instance onPort_dec (p : N) (item : N * NeighborCacheEntry)
  : Decision (onPort p item).
Proof. unfold onPort. apply _. Defined.

(** ** Example inputs *)

(** A snapshot with VLAN 1, whose table is empty, and every address
    attached; the same snapshot after VLAN 1 was deleted. *)
Definition exampleState : SwitchState :=
  {| vlans := {[ 1%N := {| neighborTable := ∅ |} ]}; attached := λ _ _, true |}.

Definition exampleStateNoVlan : SwitchState :=
  {| vlans := ∅; attached := λ _ _, true |}.

(** A snapshot whose VLAN 1 has a node for address 10 with MAC 5, and from
    which the subnet of address 10 was removed. *)
Definition exampleStateDetached : SwitchState :=
  {| vlans := {[ 1%N := {| neighborTable := {[ 10%N := EntryFields 10 5 3 7 ]} |} ]};
     attached := λ _ _, false |}.

(** A cache of VLAN 1 and interface 7 without entries, and one with a
    resolved entry for address 10 on port 3. *)
Definition exampleCache : NeighborCacheImpl :=
  {| entries_ := ∅; vlanID_ := 1%N; intfID_ := 7%N;
     sw_ := {| swState := exampleState; swUpdates := [] |} |}.

Definition exampleCache1 : NeighborCacheImpl :=
  {| entries_ := {[ 10%N := {| fields_ := EntryFields 10 5 3 7; state_ := REACHABLE |} ]};
     vlanID_ := 1%N; intfID_ := 7%N;
     sw_ := {| swState := exampleState; swUpdates := [] |} |}.

(** The same cache when VLAN 1 is gone from the snapshot of the switch. *)
Definition exampleCacheNoVlan : NeighborCacheImpl :=
  {| entries_ := {[ 10%N := {| fields_ := EntryFields 10 5 3 7; state_ := REACHABLE |} ]};
     vlanID_ := 1%N; intfID_ := 7%N;
     sw_ := {| swState := exampleStateNoVlan; swUpdates := [] |} |}.

(** A cache with a resolved entry on port 3 and one on port 4. *)
Definition exampleCache2 : NeighborCacheImpl :=
  {| entries_ := {[ 10%N := {| fields_ := EntryFields 10 5 3 7; state_ := REACHABLE |};
                    11%N := {| fields_ := EntryFields 11 6 4 7; state_ := STALE |} ]};
     vlanID_ := 1%N; intfID_ := 7%N;
     sw_ := {| swState := exampleState; swUpdates := [] |} |}.

(** A state machine whose step expires every stale entry. *)
Definition exampleProcess (e : NeighborCacheEntry) : NeighborCacheEntry :=
  match state_ e with
  | STALE => updateState e EXPIRED
  | _ => updateState e STALE
  end.

(** A table with a resolved node and a pending node. *)
Definition exampleTable : gmap N NeighborEntryFields :=
  {[ 10%N := EntryFields 10 8 4 7; 13%N := EntryFieldsPending 13 7 ]}.

Definition exampleOps : list Op :=
  [ OpSetPendingEntry 10 false;
    OpSetEntry 10 5 3 REACHABLE;
    OpSetExistingEntry 11 6 3 REACHABLE;
    OpRepopulate {[ 12%N := EntryFields 12 8 3 7; 13%N := EntryFieldsPending 13 7 ]};
    OpPortDown 3;
    OpSetEntry 10 0 0 STALE ].

(** ** isSolicited *)

(** [entry->isProbing()], declared outside this file; the comment in
    isSolicited says which states it covers: INCOMPLETE and PROBE. *)
Definition isProbing (e : NeighborCacheEntry) : bool :=
  match state_ e with
  | INCOMPLETE | PROBE => true
  | _ => false
  end.

Definition isSolicited (a : AddressType) : M bool :=
  let* entry := getCacheEntry a in
  ret (match entry with
       | Some e => isProbing e
       | None => false
       end).

(** ** Scripts with the blocking flush *)

Inductive TreeOp : Type :=
| TSetEntry (a : N) (m : N) (p : N) (state : NeighborEntryState)
| TSetExistingEntry (a : N) (m : N) (p : N) (state : NeighborEntryState)
| TSetPendingEntry (a : N) (force : bool)
| TFlushEntryBlocking (a : N)
| TPortDown (p : N).

Definition runTreeOp (op : TreeOp) : M unit :=
  match op with
  | TSetEntry a m p state => setEntry a m p state
  | TSetExistingEntry a m p state => setExistingEntry a m p state
  | TSetPendingEntry a force => setPendingEntry a force
  | TFlushEntryBlocking a => do* flushEntryBlocking a in ret tt
  | TPortDown p => portDown p
  end.

(** The operations that can bring a new address into the cache name an
    address of [A]. *)
Definition opWithin (A : N → Prop) (op : TreeOp) : Prop :=
  match op with
  | TSetEntry a _ _ _ => A a
  | TSetPendingEntry a _ => A a
  | _ => True
  end.

(** ** The tree as a mirror of the cache *)

(** A snapshot on which the transforms of the cache pass the validation for
    the addresses of [A] (the addresses of the subnets of the interface):
    the VLAN exists and these addresses are attached to the interface. *)
Definition validFor (A : N → Prop) (c : NeighborCacheImpl) (s : SwitchState)
    : Prop :=
  is_Some (getVlanIf (vlanID_ c) s) ∧
  ∀ a, A a → isIpAttached a (intfID_ c) s = true.

(** The snapshot that the queued transforms lead to has, in the VLAN of the
    cache, exactly the nodes of the entries of the cache. *)
Definition mirrored (A : N → Prop) (c : NeighborCacheImpl) : Prop :=
  ∃ s, applyUpdates (swUpdates (sw_ c)) (swState (sw_ c)) = Ok s ∧
       validFor A c s ∧
       ∀ a, nodeOf (vlanID_ c) a s = fields_ <$> (entries_ c !! a).

(** Every entry is on the interface of the cache. *)
Definition onInterface (c : NeighborCacheImpl) : Prop :=
  ∀ a e, entries_ c !! a = Some e → interfaceID (fields_ e) = intfID_ c.

(** A transform of programEntry or of programPendingEntry for the VLAN. *)
Definition isProgramFn (vlanID : N)
    (fn : SwitchState → Result (option SwitchState)) : Prop :=
  ∃ f, fn = programEntry_updateFn f vlanID ∨
       ∃ force, fn = programPendingEntry_updateFn f vlanID force.

(** The queue holds no closure of flushEntry. *)
Definition programsOnly (c : NeighborCacheImpl) : Prop :=
  Forall (isProgramFn (vlanID_ c)) (swUpdates (sw_ c)).

Definition synced (A : N → Prop) (c : NeighborCacheImpl) : Prop :=
  cache_wf c ∧ onInterface c ∧
  (∀ a e, entries_ c !! a = Some e → A a) ∧
  programsOnly c ∧ mirrored A c.

(** An operation that returns on every cache with [I] and leaves [I]. *)
Definition keeps (I : NeighborCacheImpl → Prop) (m : M unit) : Prop :=
  ∀ c, I c → ∃ c', m c = Ok (tt, c') ∧ I c'.

(** What a transform does to the node of one address of a VLAN: the
    snapshot after its application has [new] there, the other nodes and the
    attachment are as before, and the VLAN is still there. *)
Definition rewrites (fn : SwitchState → Result (option SwitchState))
    (vlanID a : N) (new : option NeighborEntryFields) (s : SwitchState) : Prop :=
  ∃ changed s',
    applyUpdate fn s = Ok (changed, s') ∧
    nodeOf vlanID a s' = new ∧
    (∀ b, b ≠ a → nodeOf vlanID b s' = nodeOf vlanID b s) ∧
    is_Some (getVlanIf vlanID s') ∧
    attached s' = attached s.

(** From [c] to [c']: no address left the map, transforms were only added
    to the queue, and the snapshot of the switch, the VLAN and the
    interface are the same. *)
Definition grows (c c' : NeighborCacheImpl) : Prop :=
  dom (entries_ c) ⊆ dom (entries_ c') ∧
  swUpdates (sw_ c) `prefix_of` swUpdates (sw_ c') ∧
  swState (sw_ c') = swState (sw_ c) ∧
  vlanID_ c' = vlanID_ c ∧ intfID_ c' = intfID_ c.

(** A snapshot whose VLAN 1 holds the resolved node of address 10. *)
Definition exampleStateNode : SwitchState :=
  {| vlans := {[ 1%N := {| neighborTable := {[ 10%N := EntryFields 10 5 3 7 ]} |} ]};
     attached := λ _ _, true |}.

(** The addresses below 16, a subnet of interface 7; a snapshot in which
    only they are attached, and only to interface 7, and whose VLAN 1 holds
    the resolved node of address 10; a cache in step with it. *)
Definition exampleSubnet (a : N) : Prop := (a < 16)%N.

Definition exampleStateSubnet : SwitchState :=
  {| vlans := {[ 1%N := {| neighborTable := {[ 10%N := EntryFields 10 5 3 7 ]} |} ]};
     attached := λ a intf, (a <? 16)%N && (intf =? 7)%N |}.

Definition exampleCacheSynced : NeighborCacheImpl :=
  {| entries_ := {[ 10%N := {| fields_ := EntryFields 10 5 3 7; state_ := REACHABLE |} ]};
     vlanID_ := 1%N; intfID_ := 7%N;
     sw_ := {| swState := exampleStateSubnet; swUpdates := [] |} |}.

(** A cache without entries on the same snapshot. *)
Definition exampleCacheBoot : NeighborCacheImpl :=
  {| entries_ := ∅; vlanID_ := 1%N; intfID_ := 7%N;
     sw_ := {| swState := exampleStateSubnet; swUpdates := [] |} |}.

(** A cache whose entry of address 10 is stale, on the snapshot that has
    the node of address 10. *)
Definition exampleCacheStaleNode : NeighborCacheImpl :=
  {| entries_ := {[ 10%N := {| fields_ := EntryFields 10 5 3 7; state_ := STALE |} ]};
     vlanID_ := 1%N; intfID_ := 7%N;
     sw_ := {| swState := exampleStateNode; swUpdates := [] |} |}.

Definition exampleTreeOps : list TreeOp :=
  [ TSetPendingEntry 11 false;
    TSetEntry 11 6 3 REACHABLE;
    TPortDown 3;
    TFlushEntryBlocking 10;
    TSetExistingEntry 11 6 4 STALE;
    TFlushEntryBlocking 11 ].

(** * Properties *)

(** ** The transforms *)

Section Transforms.

Implicit Types (f : NeighborEntryFields) (state : SwitchState) (vlan : Vlan).

Lemma checkVlanAndIntf_spec state f vlanID :
  ncachehelpers.checkVlanAndIntf state f vlanID = true ↔
  is_Some (getVlanIf vlanID state) ∧ isIpAttached (ip f) (interfaceID f) state = true.
Proof.
  unfold ncachehelpers.checkVlanAndIntf.
  destruct (getVlanIf vlanID state) as [v|]; simpl.
  - destruct (isIpAttached _ _ _); simpl; (split; [eauto|]); try done.
    by intros [_ ?].
  - split; [done|]. intros [[? ?] _]. done.
Qed.

Lemma checkVlanAndIntf_no_vlan state f vlanID :
  getVlanIf vlanID state = None →
  ncachehelpers.checkVlanAndIntf state f vlanID = false.
Proof. unfold ncachehelpers.checkVlanAndIntf. by intros ->. Qed.

Lemma getVlanIf_modify vlanID table state :
  getVlanIf vlanID (modify vlanID table state) = Some {| neighborTable := table |}.
Proof. unfold getVlanIf, modify; simpl. by rewrite lookup_insert_eq. Qed.

Lemma nodeOf_modify vlanID table state a :
  nodeOf vlanID a (modify vlanID table state) = table !! a.
Proof. unfold nodeOf. by rewrite getVlanIf_modify. Qed.

Lemma isIpAttached_modify vlanID table state a intf :
  isIpAttached a intf (modify vlanID table state) = isIpAttached a intf state.
Proof. reflexivity. Qed.

Lemma checkVlanAndIntf_modify state f vlanID table :
  ncachehelpers.checkVlanAndIntf state f vlanID = true →
  ncachehelpers.checkVlanAndIntf (modify vlanID table state) f vlanID = true.
Proof.
  rewrite !checkVlanAndIntf_spec, getVlanIf_modify, isIpAttached_modify.
  intros [_ ?]; eauto.
Qed.

(** A missing VLAN: the programming transforms signal no-op. *)
Lemma programEntry_updateFn_no_vlan f vlanID state :
  getVlanIf vlanID state = None →
  programEntry_updateFn f vlanID state = Ok None.
Proof.
  intros H. unfold programEntry_updateFn.
  by rewrite checkVlanAndIntf_no_vlan.
Qed.

Lemma programPendingEntry_updateFn_no_vlan f vlanID force state :
  getVlanIf vlanID state = None →
  programPendingEntry_updateFn f vlanID force state = Ok None.
Proof.
  intros H. unfold programPendingEntry_updateFn.
  by rewrite checkVlanAndIntf_no_vlan.
Qed.

(** A missing VLAN: the flush transform fails in [getVlan]. *)
Lemma flushEntry_updateFn_no_vlan vlanID a state :
  getVlanIf vlanID state = None →
  flushEntry_updateFn vlanID a state = Err FbossError.
Proof.
  unfold getVlanIf, flushEntry_updateFn, getVlan. by intros ->.
Qed.

(** The programming transform on a snapshot that passes the validation and
    has no node for the address: the node is added. *)
Lemma programEntry_updateFn_add f vlanID state vlan :
  getVlanIf vlanID state = Some vlan →
  isIpAttached (ip f) (interfaceID f) state = true →
  getNodeIf (ip f) (neighborTable vlan) = None →
  programEntry_updateFn f vlanID state
  = Ok (Some (modify vlanID (addEntry f (neighborTable vlan)) state)).
Proof.
  intros Hv Hat Hn. unfold programEntry_updateFn.
  assert (ncachehelpers.checkVlanAndIntf state f vlanID = true) as ->
    by (apply checkVlanAndIntf_spec; rewrite Hv; eauto).
  simpl. by rewrite Hv, Hn.
Qed.

(** The decision of the programming transform once the validation passed. *)
Lemma programEntry_updateFn_valid f vlanID state :
  ncachehelpers.checkVlanAndIntf state f vlanID = true →
  programEntry_updateFn f vlanID state = Ok None ↔
  ∃ node, nodeOf vlanID (ip f) state = Some node ∧
          mac node = mac f ∧ port node = port f ∧
          interfaceID node = interfaceID f ∧ pending node = false.
Proof.
  intros Hc. unfold programEntry_updateFn, nodeOf. rewrite Hc. simpl.
  apply checkVlanAndIntf_spec in Hc as [[vlan Hv] _]. rewrite Hv.
  destruct (getNodeIf (ip f) (neighborTable vlan)) as [node|] eqn:Hn.
  - destruct ((mac node =? mac f)%N && (port node =? port f)%N
              && (interfaceID node =? interfaceID f)%N && negb (pending node))
      eqn:Hcmp.
    + split; [intros _|done]. exists node.
      rewrite !andb_true_iff, !N.eqb_eq, negb_true_iff in Hcmp.
      by destruct Hcmp as [[[? ?] ?] ?].
    + split; [done|]. intros (node' & [= <-] & Hm & Hp & Hi & Hpe).
      rewrite Hm, Hp, Hi, Hpe, !N.eqb_refl in Hcmp. done.
  - split; [done|]. intros (? & ? & _). done.
Qed.

(** Applied again to the snapshot it produced, the programming transform of
    a resolved entry signals no-op. *)
Lemma programEntry_updateFn_again f vlanID state state1 :
  pending f = false →
  programEntry_updateFn f vlanID state = Ok (Some state1) →
  programEntry_updateFn f vlanID state1 = Ok None.
Proof.
  intros Hp Hfn.
  assert (ncachehelpers.checkVlanAndIntf state f vlanID = true) as Hc.
  { unfold programEntry_updateFn in Hfn.
    by destruct (ncachehelpers.checkVlanAndIntf state f vlanID). }
  assert (∃ table, state1 = modify vlanID table state ∧ table !! ip f = Some f)
    as (table & -> & Ht).
  { unfold programEntry_updateFn in Hfn. rewrite Hc in Hfn. simpl in Hfn.
    destruct (getVlanIf vlanID state) as [vlan|]; [|done].
    destruct (getNodeIf (ip f) (neighborTable vlan)) as [node|].
    - destruct (_ && _) in Hfn; [done|]. injection Hfn as <-.
      eexists; split; [done|]. unfold updateEntry. by rewrite lookup_insert_eq.
    - injection Hfn as <-.
      eexists; split; [done|]. unfold addEntry. by rewrite lookup_insert_eq. }
  apply programEntry_updateFn_valid.
  - by apply checkVlanAndIntf_modify.
  - exists f. by rewrite nodeOf_modify.
Qed.

(** The pending transform without [force] on a snapshot that has a node. *)
Lemma programPendingEntry_updateFn_present f vlanID state node :
  nodeOf vlanID (ip f) state = Some node →
  programPendingEntry_updateFn f vlanID false state = Ok None.
Proof.
  unfold nodeOf, programPendingEntry_updateFn. intros Hn.
  destruct (ncachehelpers.checkVlanAndIntf state f vlanID); [|done]. simpl.
  destruct (getVlanIf vlanID state) as [vlan|]; [|done].
  by rewrite Hn.
Qed.

(** The forced pending transform on a snapshot that passes the validation:
    whatever node was there, the node is now the pending one. *)
Lemma programPendingEntry_updateFn_force f vlanID state :
  ncachehelpers.checkVlanAndIntf state f vlanID = true →
  ∃ state1, programPendingEntry_updateFn f vlanID true state = Ok (Some state1) ∧
    nodeOf vlanID (ip f) state1 = Some (EntryFieldsPending (ip f) (interfaceID f)) ∧
    ∀ b, b ≠ ip f → nodeOf vlanID b state1 = nodeOf vlanID b state.
Proof.
  intros Hc. unfold programPendingEntry_updateFn. rewrite Hc. simpl.
  apply checkVlanAndIntf_spec in Hc as [[vlan Hv] _]. rewrite Hv.
  destruct (getNodeIf (ip f) (neighborTable vlan)) as [node|];
    (eexists; split; [done|]);
    unfold addPendingEntry, removeEntry_table, getNodeIf;
    (split; [by rewrite nodeOf_modify, lookup_insert_eq|]); intros b Hb;
    rewrite nodeOf_modify; unfold nodeOf, getNodeIf; rewrite Hv.
  - by rewrite lookup_insert_ne, lookup_delete_ne.
  - by rewrite lookup_insert_ne.
Qed.

(** Any pending transform leaves the nodes of the other addresses alone. *)
Lemma programPendingEntry_updateFn_frame f vlanID force state state1 b :
  programPendingEntry_updateFn f vlanID force state = Ok (Some state1) →
  b ≠ ip f →
  nodeOf vlanID b state1 = nodeOf vlanID b state.
Proof.
  unfold programPendingEntry_updateFn. intros Hfn Hb.
  destruct (ncachehelpers.checkVlanAndIntf state f vlanID); [|done].
  simpl in Hfn. destruct (getVlanIf vlanID state) as [vlan|] eqn:Hv; [|done].
  destruct (getNodeIf (ip f) (neighborTable vlan)) as [node|].
  - destruct force; [|done]. injection Hfn as <-.
    rewrite nodeOf_modify. unfold nodeOf. rewrite Hv.
    unfold addPendingEntry, removeEntry_table, getNodeIf.
    by rewrite lookup_insert_ne, lookup_delete_ne.
  - injection Hfn as <-. rewrite nodeOf_modify. unfold nodeOf. rewrite Hv.
    unfold addPendingEntry, getNodeIf. by rewrite lookup_insert_ne.
Qed.

(** The flush transform on a snapshot that has the VLAN. *)
Lemma flushEntry_updateFn_vlan vlanID a state vlan :
  getVlanIf vlanID state = Some vlan →
  flushEntry_updateFn vlanID a state =
    match neighborTable vlan !! a with
    | Some _ => Ok (Some (modify vlanID (delete a (neighborTable vlan)) state))
    | None => Ok None
    end.
Proof.
  unfold getVlanIf, flushEntry_updateFn, getVlan, flushEntryFromSwitchState,
    getNodeIf, removeNode.
  intros ->. by destruct (neighborTable vlan !! a).
Qed.

End Transforms.

(** ** Entries *)

Lemma fieldsMatch_spec e f :
  fieldsMatch e f = true ↔
  mac (fields_ e) = mac f ∧ port (fields_ e) = port f ∧
  pending (fields_ e) = pending f.
Proof.
  unfold fieldsMatch.
  rewrite !andb_true_iff, !N.eqb_eq, Bool.eqb_true_iff. tauto.
Qed.

Lemma refreshed_state e f state : getState (refreshed e f state) = state.
Proof. reflexivity. Qed.

(** After [setEntryInternal] found an entry, the MAC, the port and the
    pending flag of the entry are the requested ones. *)
Lemma refreshed_fields e f state :
  mac (fields_ (refreshed e f state)) = mac f ∧
  port (fields_ (refreshed e f state)) = port f ∧
  pending (fields_ (refreshed e f state)) = pending f.
Proof.
  unfold refreshed. destruct (fieldsMatch e f) eqn:Hm; simpl; [|done].
  by apply fieldsMatch_spec.
Qed.

Lemma refreshed_ip e f state :
  getIP e = ip f → getIP (refreshed e f state) = ip f.
Proof. unfold refreshed, getIP. by destruct (fieldsMatch e f). Qed.

Lemma refreshed_refreshed e f state state' :
  refreshed (refreshed e f state) f state' = refreshed e f state'.
Proof.
  unfold refreshed at 1.
  assert (fieldsMatch (refreshed e f state) f = true) as ->.
  { apply fieldsMatch_spec, refreshed_fields. }
  simpl. unfold refreshed, updateState. simpl. done.
Qed.

(** ** The member functions, step by step *)

Section Steps.

Implicit Types (c : NeighborCacheImpl) (e : NeighborCacheEntry)
  (f : NeighborEntryFields).

Lemma setEntryInternal_found f state add c e :
  entries_ c !! ip f = Some e →
  setEntryInternal f state add c
  = Ok (Some (refreshed e f state),
        withEntries (<[ip f := refreshed e f state]> (entries_ c)) c).
Proof. intros H. unfold setEntryInternal, bind, getCacheEntry. by rewrite H. Qed.

Lemma setEntryInternal_create f state c :
  entries_ c !! ip f = None →
  setEntryInternal f state true c
  = Ok (Some {| fields_ := f; state_ := state |},
        withEntries (<[ip f := {| fields_ := f; state_ := state |}]> (entries_ c)) c).
Proof. intros H. unfold setEntryInternal, bind, getCacheEntry. by rewrite H. Qed.

Lemma setEntryInternal_absent f state c :
  entries_ c !! ip f = None →
  setEntryInternal f state false c = Ok (None, c).
Proof. intros H. unfold setEntryInternal, bind, getCacheEntry. by rewrite H. Qed.

(** The entry [setEntryInternal] returns carries the pending flag of the
    fields it was given. *)
Lemma setEntryInternal_pending f state add c e c' :
  setEntryInternal f state add c = Ok (Some e, c') →
  isPending e = pending f.
Proof.
  destruct (entries_ c !! ip f) as [e0|] eqn:H.
  - rewrite (setEntryInternal_found _ _ _ _ _ H). intros [= <- _].
    apply refreshed_fields.
  - destruct add.
    + rewrite (setEntryInternal_create _ _ _ H). by intros [= <- _].
    + by rewrite (setEntryInternal_absent _ _ _ H).
Qed.

Lemma programEntry_resolved e c :
  isPending e = false →
  programEntry e c
  = Ok (tt, withUpdate (programEntry_updateFn (fields_ e) (vlanID_ c)) c).
Proof. intros H. unfold programEntry, bind, CHECK. by rewrite H. Qed.

Lemma programPendingEntry_pending e force c :
  isPending e = true →
  programPendingEntry e force c
  = Ok (tt, withUpdate (programPendingEntry_updateFn (fields_ e) (vlanID_ c) force) c).
Proof. intros H. unfold programPendingEntry, bind, CHECK. by rewrite H. Qed.

Lemma setEntry_create a m p state c :
  entries_ c !! a = None →
  let f := EntryFields a m p (intfID_ c) in
  setEntry a m p state c
  = Ok (tt, withUpdate (programEntry_updateFn f (vlanID_ c))
              (withEntries (<[a := {| fields_ := f; state_ := state |}]> (entries_ c)) c)).
Proof.
  intros H f. subst f. unfold setEntry, bind.
  by rewrite (setEntryInternal_create (EntryFields a m p (intfID_ c)) state c H).
Qed.

Lemma setEntry_found a m p state c e :
  entries_ c !! a = Some e →
  let e' := refreshed e (EntryFields a m p (intfID_ c)) state in
  setEntry a m p state c
  = Ok (tt, withUpdate (programEntry_updateFn (fields_ e') (vlanID_ c))
              (withEntries (<[a := e']> (entries_ c)) c)).
Proof.
  intros H e'. subst e'. unfold setEntry, bind.
  rewrite (setEntryInternal_found (EntryFields a m p (intfID_ c)) state true c e H).
  simpl. rewrite programEntry_resolved; [done|].
  apply (refreshed_fields e (EntryFields a m p (intfID_ c)) state).
Qed.

Lemma setExistingEntry_found a m p state c e :
  entries_ c !! a = Some e →
  setExistingEntry a m p state c = setEntry a m p state c.
Proof.
  intros H. unfold setExistingEntry, setEntry, bind.
  by rewrite !(setEntryInternal_found (EntryFields a m p (intfID_ c)) state _ c e H).
Qed.

Lemma setExistingEntry_absent a m p state c :
  entries_ c !! a = None →
  setExistingEntry a m p state c = Ok (tt, c).
Proof.
  intros H. unfold setExistingEntry, bind.
  by rewrite (setEntryInternal_absent (EntryFields a m p (intfID_ c)) state c H).
Qed.

Lemma setPendingEntry_kept a c e :
  entries_ c !! a = Some e →
  setPendingEntry a false c = Ok (tt, c).
Proof.
  intros H. unfold setPendingEntry, bind, getCacheEntry. by rewrite H.
Qed.

Lemma setPendingEntry_create a force c :
  entries_ c !! a = None →
  let f := EntryFieldsPending a (intfID_ c) in
  setPendingEntry a force c
  = Ok (tt, withUpdate (programPendingEntry_updateFn f (vlanID_ c) force)
              (withEntries (<[a := {| fields_ := f; state_ := INCOMPLETE |}]> (entries_ c)) c)).
Proof.
  intros H f. subst f. unfold setPendingEntry, bind, getCacheEntry. rewrite H.
  rewrite andb_false_r.
  rewrite (setEntryInternal_create (EntryFieldsPending a (intfID_ c)) INCOMPLETE c H).
  by rewrite programPendingEntry_pending.
Qed.

Lemma setPendingEntry_forced a c e :
  entries_ c !! a = Some e →
  let e' := refreshed e (EntryFieldsPending a (intfID_ c)) INCOMPLETE in
  setPendingEntry a true c
  = Ok (tt, withUpdate (programPendingEntry_updateFn (fields_ e') (vlanID_ c) true)
              (withEntries (<[a := e']> (entries_ c)) c)).
Proof.
  intros H e'. subst e'. unfold setPendingEntry, bind, getCacheEntry. simpl.
  rewrite (setEntryInternal_found (EntryFieldsPending a (intfID_ c)) INCOMPLETE true c e H).
  simpl. rewrite programPendingEntry_pending; [done|].
  apply (refreshed_fields e (EntryFieldsPending a (intfID_ c)) INCOMPLETE).
Qed.

Lemma removeEntry_absent a c :
  entries_ c !! a = None → removeEntry a c = Ok (false, c).
Proof. intros H. unfold removeEntry. by rewrite H. Qed.

Lemma removeEntry_found a c e :
  entries_ c !! a = Some e →
  removeEntry a c = Ok (true, withEntries (delete a (entries_ c)) c).
Proof. intros H. unfold removeEntry. by rewrite H. Qed.

Lemma flushEntry_absent a blocking c :
  entries_ c !! a = None → flushEntry a blocking c = Ok (false, c).
Proof.
  intros H. unfold flushEntry, bind. by rewrite (removeEntry_absent _ _ H).
Qed.

Lemma flushEntry_found a c e :
  entries_ c !! a = Some e →
  flushEntry a false c
  = Ok (true, withUpdate (flushEntry_updateFn_queued (vlanID_ c) a)
                (withEntries (delete a (entries_ c)) c)).
Proof.
  intros H. unfold flushEntry, bind. by rewrite (removeEntry_found _ _ _ H).
Qed.

(** The closure when the address is not in the cache map and the call is
    in progress is the transform of the blocking call. *)
Lemma flushEntry_closure_live vlanID a :
  flushEntry_closure false true vlanID a = flushEntry_updateFn vlanID a.
Proof. reflexivity. Qed.

Lemma flushEntryBlocking_found a c e :
  entries_ c !! a = Some e →
  flushEntryBlocking a c
  = match SwSwitch_updateStateBlocking (flushEntry_updateFn (vlanID_ c) a) (sw_ c) with
    | Err err => Err err
    | Ok (flushed, sw') =>
        Ok (flushed, {| entries_ := delete a (entries_ c); vlanID_ := vlanID_ c;
                        intfID_ := intfID_ c; sw_ := sw' |})
    end.
Proof.
  intros H. unfold flushEntryBlocking, flushEntry, bind.
  rewrite (removeEntry_found _ _ _ H). simpl.
  rewrite lookup_delete_eq.
  rewrite bool_decide_eq_false_2 by (by intros [? ?]).
  rewrite flushEntry_closure_live.
  by destruct (SwSwitch_updateStateBlocking _ _) as [[? ?]|].
Qed.

End Steps.

(** ** setEntry on a fresh address *)

(** C1: for an address [a] without a cache entry, [setEntry a m p REACHABLE]
    returns; the lookup of [a] then yields the entry with MAC [m], port [p]
    and state REACHABLE; one transform was submitted, and on every snapshot
    in which the VLAN exists, [a] is locally attached and the table has no
    node for [a], it returns a new snapshot whose table has the node of [a]
    with MAC [m], port [p] and the interface of the cache. *)
Theorem setEntry_fresh_reachable (c : NeighborCacheImpl) (a m p : N) :
  entries_ c !! a = None →
  ∃ c' fn,
    setEntry a m p REACHABLE c = Ok (tt, c') ∧
    getCacheEntry a c'
    = Ok (Some {| fields_ := {| ip := a; mac := m; port := p;
                                interfaceID := intfID_ c; pending := false |};
                  state_ := REACHABLE |}, c') ∧
    swUpdates (sw_ c') = swUpdates (sw_ c) ++ [fn] ∧
    ∀ state vlan,
      getVlanIf (vlanID_ c) state = Some vlan →
      isIpAttached a (intfID_ c) state = true →
      getNodeIf a (neighborTable vlan) = None →
      ∃ state',
        fn state = Ok (Some state') ∧
        nodeOf (vlanID_ c) a state'
        = Some {| ip := a; mac := m; port := p;
                  interfaceID := intfID_ c; pending := false |}.
Proof.
  intros H. eexists _, _. split; [by apply setEntry_create|].
  split; [|split; [reflexivity|]].
  - unfold getCacheEntry; simpl. by rewrite lookup_insert_eq.
  - intros state vlan Hv Hat Hn. eexists. split.
    + by apply (programEntry_updateFn_add (EntryFields a m p (intfID_ c)) _ _ vlan).
    + rewrite nodeOf_modify. unfold addEntry; simpl. by rewrite lookup_insert_eq.
Qed.

Lemma setEntry_fresh_reachable_witness :
  entries_ exampleCache !! 10%N = None ∧
  ∃ c' fn,
    setEntry 10 5 3 REACHABLE exampleCache = Ok (tt, c') ∧
    getCacheEntry 10 c'
    = Ok (Some {| fields_ := {| ip := 10; mac := 5; port := 3;
                                interfaceID := 7; pending := false |};
                  state_ := REACHABLE |}, c') ∧
    swUpdates (sw_ c') = [fn] ∧
    ∀ state vlan,
      getVlanIf 1 state = Some vlan →
      isIpAttached 10 7 state = true →
      getNodeIf 10 (neighborTable vlan) = None →
      ∃ state',
        fn state = Ok (Some state') ∧
        nodeOf 1 10 state'
        = Some {| ip := 10; mac := 5; port := 3; interfaceID := 7; pending := false |}.
Proof.
  split; [reflexivity|].
  apply (setEntry_fresh_reachable exampleCache 10 5 3). reflexivity.
Defined.

(** ** The transforms when the VLAN was deleted *)

(** C2: the entry of address 10 is flushed and VLAN 1 is gone from the
    snapshot the transform meets: the transform of flushEntry, as the
    fire-and-forget call queued it and as the blocking call runs it, fails
    in [getVlan] instead of signalling no-op, and so does the application
    of the queue, while the transforms of programEntry and
    programPendingEntry signal no-op on the same snapshot. *)
Theorem flushEntry_transform_vlan_deleted :
  ∃ c',
    flushEntry 10 false exampleCache1 = Ok (true, c') ∧
    swUpdates (sw_ c') = [flushEntry_updateFn_queued 1 10] ∧
    flushEntry_updateFn_queued 1 10 exampleStateNoVlan = Err FbossError ∧
    flushEntry_updateFn 1 10 exampleStateNoVlan = Err FbossError ∧
    applyUpdates (swUpdates (sw_ c')) exampleStateNoVlan = Err FbossError ∧
    programEntry_updateFn (EntryFields 10 5 3 7) 1 exampleStateNoVlan = Ok None ∧
    programPendingEntry_updateFn (EntryFieldsPending 10 7) 1 true exampleStateNoVlan
    = Ok None.
Proof. eexists. repeat split. Qed.

(** ** Idempotence of setEntry *)

(** C3, the claim as stated fails: on a snapshot whose VLAN has a node for
    the address with another MAC, and in which the address is not locally
    attached any more, the transform of programEntry signals no-op. *)
Lemma programEntry_noop_without_match :
  programEntry_updateFn (EntryFields 10 6 3 7) 1 exampleStateDetached = Ok None ∧
  nodeOf 1 10 exampleStateDetached = Some (EntryFields 10 5 3 7) ∧
  ¬ (programEntry_updateFn (EntryFields 10 6 3 7) 1 exampleStateDetached = Ok None ↔
     ∃ node, nodeOf 1 (ip (EntryFields 10 6 3 7)) exampleStateDetached = Some node ∧
             mac node = mac (EntryFields 10 6 3 7) ∧
             port node = port (EntryFields 10 6 3 7) ∧
             interfaceID node = interfaceID (EntryFields 10 6 3 7) ∧
             pending node = false).
Proof.
  split; [reflexivity|]. split; [reflexivity|].
  intros [Hnoop _]. destruct (Hnoop eq_refl) as (node & Hn & Hm & _).
  vm_compute in Hn. injection Hn as <-. discriminate Hm.
Qed.

(** C3, amended: two calls of [setEntry] with the same MAC, port and state
    submit two transforms, and the second one signals no-op on the snapshot
    the first one produced (and on any snapshot where the first one did);
    on a snapshot that passes the validation of VLAN and interface, the
    transform of programEntry signals no-op exactly when the table has a
    node for the address whose MAC, port and interface are the requested
    ones and which is not pending; on a snapshot that fails the validation
    it signals no-op whatever the node is. *)
Theorem setEntry_twice_one_transition (c : NeighborCacheImpl) (a m p : N)
    (st : NeighborEntryState) (f : NeighborEntryFields) (vlanID : N)
    (state : SwitchState) :
  (∃ c1 c2 fn1 fn2,
     setEntry a m p st c = Ok (tt, c1) ∧
     setEntry a m p st c1 = Ok (tt, c2) ∧
     swUpdates (sw_ c2) = swUpdates (sw_ c) ++ [fn1; fn2] ∧
     (∀ s s1, fn1 s = Ok (Some s1) → fn2 s1 = Ok None) ∧
     (∀ s, fn1 s = Ok None → fn2 s = Ok None) ∧
     (∀ s, applyUpdates [fn1; fn2] s = applyUpdates [fn1] s)) ∧
  (ncachehelpers.checkVlanAndIntf state f vlanID = true →
   programEntry_updateFn f vlanID state = Ok None ↔
   ∃ node, nodeOf vlanID (ip f) state = Some node ∧
           mac node = mac f ∧ port node = port f ∧
           interfaceID node = interfaceID f ∧ pending node = false) ∧
  (ncachehelpers.checkVlanAndIntf state f vlanID = false →
   programEntry_updateFn f vlanID state = Ok None).
Proof.
  split; [|split; [apply programEntry_updateFn_valid|]];
    [|intros Hc; unfold programEntry_updateFn; by rewrite Hc].
  set (F := EntryFields a m p (intfID_ c)).
  assert (∃ e1, setEntry a m p st c
      = Ok (tt, withUpdate (programEntry_updateFn (fields_ e1) (vlanID_ c))
                  (withEntries (<[a := e1]> (entries_ c)) c))
      ∧ pending (fields_ e1) = false ∧ refreshed e1 F st = e1) as (e1 & H1 & Hp & Hr).
  { destruct (entries_ c !! a) as [e|] eqn:He.
    - exists (refreshed e F st). split; [by apply setEntry_found|].
      split; [apply (refreshed_fields e F st)|apply refreshed_refreshed].
    - exists {| fields_ := F; state_ := st |}. split; [by apply setEntry_create|].
      split; [done|]. unfold refreshed, fieldsMatch; simpl.
      by rewrite !N.eqb_refl. }
  set (fn := programEntry_updateFn (fields_ e1) (vlanID_ c)) in *.
  set (c1 := withUpdate fn (withEntries (<[a := e1]> (entries_ c)) c)) in *.
  exists c1, (withUpdate fn (withEntries (<[a := e1]> (entries_ c1)) c1)), fn, fn.
  split; [exact H1|]. split.
  - rewrite (setEntry_found a m p st c1 e1) by apply lookup_insert_eq.
    change (intfID_ c1) with (intfID_ c). fold F. rewrite Hr. reflexivity.
  - simpl. split; [by rewrite <-app_assoc|]. split.
    + intros s s1. by apply programEntry_updateFn_again.
    + split; [done|]. intros s. simpl. unfold applyUpdate.
      destruct (fn s) as [[s1|]|] eqn:Hfn; [| by rewrite Hfn | done].
      assert (fn s1 = Ok None) as -> by (by apply programEntry_updateFn_again with s).
      done.
Qed.

Lemma setEntry_twice_one_transition_witness :
  (∃ c1 c2 fn1 fn2,
     setEntry 10 5 3 REACHABLE exampleCache = Ok (tt, c1) ∧
     setEntry 10 5 3 REACHABLE c1 = Ok (tt, c2) ∧
     swUpdates (sw_ c2) = [fn1; fn2] ∧
     (∀ s s1, fn1 s = Ok (Some s1) → fn2 s1 = Ok None) ∧
     (∀ s, fn1 s = Ok None → fn2 s = Ok None) ∧
     (∀ s, applyUpdates [fn1; fn2] s = applyUpdates [fn1] s)) ∧
  ncachehelpers.checkVlanAndIntf exampleState (EntryFields 10 5 3 7) 1 = true ∧
  (programEntry_updateFn (EntryFields 10 5 3 7) 1 exampleState = Ok None ↔
   ∃ node, nodeOf 1 10 exampleState = Some node ∧
           mac node = 5%N ∧ port node = 3%N ∧
           interfaceID node = 7%N ∧ pending node = false) ∧
  ncachehelpers.checkVlanAndIntf exampleStateDetached (EntryFields 10 6 3 7) 1
  = false ∧
  programEntry_updateFn (EntryFields 10 6 3 7) 1 exampleStateDetached = Ok None.
Proof.
  destruct (setEntry_twice_one_transition exampleCache 10 5 3 REACHABLE
              (EntryFields 10 5 3 7) 1 exampleState) as (Htwice & Hiff & _).
  destruct (setEntry_twice_one_transition exampleCache 10 5 3 REACHABLE
              (EntryFields 10 6 3 7) 1 exampleStateDetached) as (_ & _ & Hfail).
  split; [exact Htwice|]. split; [reflexivity|].
  split; [apply Hiff; reflexivity|].
  split; [reflexivity|]. apply Hfail. reflexivity.
Defined.

(** ** flushEntry *)

(** flushEntry on an absent address: the result is false, and nothing
    changed in the cache or in the switch. *)
Lemma flushEntry_absent_untouched (c : NeighborCacheImpl) (a : N) (blocking : bool) :
  entries_ c !! a = None → flushEntry a blocking c = Ok (false, c).
Proof. apply flushEntry_absent. Qed.


Lemma flushEntry_updateFn_queued_vlan vlanID a state vlan :
  getVlanIf vlanID state = Some vlan →
  flushEntry_updateFn_queued vlanID a state =
    match neighborTable vlan !! a with
    | Some _ => Err DanglingWrite
    | None => Ok None
    end.
Proof.
  unfold getVlanIf, flushEntry_updateFn_queued, flushEntry_closure, getVlan,
    flushEntryFromSwitchState, getNodeIf.
  intros ->. by destruct (neighborTable vlan !! a).
Qed.

(** flushEntry on a present address, fire-and-forget: the result is true,
    the entry is gone from the map and one closure was submitted; on a
    snapshot with the VLAN and a node for the address the closure, applied
    after the call returned, writes through the dangling reference. *)
Lemma flushEntry_present_nonblocking (c : NeighborCacheImpl) (a : N)
    (e : NeighborCacheEntry) :
  entries_ c !! a = Some e →
  ∃ c' fn,
    flushEntry a false c = Ok (true, c') ∧
    entries_ c' !! a = None ∧
    swUpdates (sw_ c') = swUpdates (sw_ c) ++ [fn] ∧
    ∀ state vlan node,
      getVlanIf (vlanID_ c) state = Some vlan →
      neighborTable vlan !! a = Some node →
      fn state = Err DanglingWrite.
Proof.
  intros H. eexists _, _. split; [by eapply flushEntry_found|].
  split; [simpl; apply lookup_delete_eq|]. split; [reflexivity|].
  intros state vlan node Hv Hn.
  by rewrite (flushEntry_updateFn_queued_vlan _ _ _ _ Hv), Hn.
Qed.

(** flushEntryBlocking on a present address when the queue applies to a
    snapshot that has the VLAN: the result is whether the table had a node
    for the address, which is whether the snapshot changed. *)
Lemma flushEntryBlocking_present_vlan (c : NeighborCacheImpl) (a : N)
    (e : NeighborCacheEntry) (state1 : SwitchState) (vlan : Vlan) :
  entries_ c !! a = Some e →
  applyUpdates (swUpdates (sw_ c)) (swState (sw_ c)) = Ok state1 →
  getVlanIf (vlanID_ c) state1 = Some vlan →
  ∃ c',
    flushEntryBlocking a c = Ok (bool_decide (is_Some (neighborTable vlan !! a)), c') ∧
    entries_ c' !! a = None ∧
    nodeOf (vlanID_ c) a (swState (sw_ c')) = None ∧
    (neighborTable vlan !! a = None → swState (sw_ c') = state1).
Proof.
  intros H Hq Hv. rewrite (flushEntryBlocking_found _ _ _ H).
  unfold SwSwitch_updateStateBlocking, applyUpdate.
  rewrite Hq, (flushEntry_updateFn_vlan _ _ _ _ Hv).
  destruct (neighborTable vlan !! a) as [node|] eqn:Hn; simpl;
    (eexists; split; [reflexivity|]); simpl;
    (split; [apply lookup_delete_eq|]).
  - split; [|done]. rewrite nodeOf_modify. apply lookup_delete_eq.
  - split; [|done]. unfold nodeOf. by rewrite Hv.
Qed.

(** C4: address 10 has an entry and VLAN 1 is gone from the snapshot of the
    switch: flushEntryBlocking does not return false, the exception of
    [getVlan] leaves the transform and the call. *)
Theorem flushEntryBlocking_vlan_deleted :
  entries_ exampleCacheNoVlan !! 10%N
  = Some {| fields_ := EntryFields 10 5 3 7; state_ := REACHABLE |} ∧
  getVlanIf (vlanID_ exampleCacheNoVlan) (swState (sw_ exampleCacheNoVlan)) = None ∧
  flushEntryBlocking 10 exampleCacheNoVlan = Err FbossError.
Proof. repeat split. Qed.

(** ** setPendingEntry without force *)

(** C5: [setPendingEntry a false] on an address that has an entry returns
    the cache as it was, map and queue of transforms included; and the
    transform of programPendingEntry without force, on a snapshot that has
    a node for the address, signals no-op, so that its application leaves
    the snapshot, and the node, as they were. *)
Theorem setPendingEntry_unforced_keeps (c : NeighborCacheImpl) (a : N)
    (e : NeighborCacheEntry) (f : NeighborEntryFields) (vlanID : N)
    (state : SwitchState) (node : NeighborEntryFields) :
  (entries_ c !! a = Some e → setPendingEntry a false c = Ok (tt, c)) ∧
  (nodeOf vlanID (ip f) state = Some node →
   programPendingEntry_updateFn f vlanID false state = Ok None ∧
   applyUpdate (programPendingEntry_updateFn f vlanID false) state = Ok (false, state)).
Proof.
  split; [apply setPendingEntry_kept|].
  intros Hn. unfold applyUpdate.
  by rewrite (programPendingEntry_updateFn_present _ _ _ _ Hn).
Qed.

Lemma setPendingEntry_unforced_keeps_witness :
  setPendingEntry 10 false exampleCache1 = Ok (tt, exampleCache1) ∧
  programPendingEntry_updateFn (EntryFieldsPending 10 7) 1 false
    (modify 1 {[ 10%N := EntryFields 10 5 3 7 ]} exampleState) = Ok None ∧
  applyUpdate (programPendingEntry_updateFn (EntryFieldsPending 10 7) 1 false)
    (modify 1 {[ 10%N := EntryFields 10 5 3 7 ]} exampleState)
  = Ok (false, modify 1 {[ 10%N := EntryFields 10 5 3 7 ]} exampleState).
Proof.
  destruct (setPendingEntry_unforced_keeps exampleCache1 10
              {| fields_ := EntryFields 10 5 3 7; state_ := REACHABLE |}
              (EntryFieldsPending 10 7) 1
              (modify 1 {[ 10%N := EntryFields 10 5 3 7 ]} exampleState)
              (EntryFields 10 5 3 7)) as [Hmap Htree].
  split; [apply Hmap; reflexivity|]. apply Htree. reflexivity.
Defined.

(** ** processEntry *)

(** processEntry on the cache map and the queue: without entry the cache
    is returned as it was; with entry [e] the entry becomes [process e],
    one step of its state machine, and if its state is then EXPIRED the
    call goes on as [flushEntry a false]: the entry leaves the map and the
    closure of the fire-and-forget flush is queued. *)
Lemma processEntry_effects (process : NeighborCacheEntry → NeighborCacheEntry)
    (c : NeighborCacheImpl) (a : N) (e : NeighborCacheEntry) :
  (entries_ c !! a = None → processEntry process a c = Ok (tt, c)) ∧
  (entries_ c !! a = Some e → getState (process e) ≠ EXPIRED →
   processEntry process a c
   = Ok (tt, withEntries (<[a := process e]> (entries_ c)) c)) ∧
  (entries_ c !! a = Some e → getState (process e) = EXPIRED →
   ∃ c',
     processEntry process a c = Ok (tt, c') ∧
     flushEntry a false (withEntries (<[a := process e]> (entries_ c)) c)
     = Ok (true, c') ∧
     entries_ c' = delete a (entries_ c) ∧
     getCacheEntry a c' = Ok (None, c') ∧
     sw_ c' = SwSwitch_updateState (flushEntry_updateFn_queued (vlanID_ c) a) (sw_ c)).
Proof.
  split; [|split].
  - intros H. unfold processEntry, bind, getCacheEntry. by rewrite H.
  - intros H Hst. unfold processEntry, bind, getCacheEntry. rewrite H. simpl.
    by rewrite bool_decide_eq_false_2.
  - intros H Hst.
    set (c1 := withEntries (<[a := process e]> (entries_ c)) c).
    pose proof (flushEntry_found a c1 (process e) (lookup_insert_eq _ _ _)) as Hfl.
    eexists. split; [|split; [exact Hfl|]].
    + unfold processEntry, bind, getCacheEntry. rewrite H. simpl.
      rewrite bool_decide_eq_true_2 by done.
      unfold writeEntry, setEntries. fold (withEntries (<[a:=process e]> (entries_ c)) c).
      fold c1. by rewrite Hfl.
    + simpl. split; [apply delete_insert_eq|].
      split; [unfold getCacheEntry; simpl; by rewrite lookup_delete_eq|].
      done.
Qed.

(** C8: the entry of address 10 is stale, its step expires it, and the
    snapshot has the node of address 10.  [processEntry 10] returns: the
    entry left the map and the closure of the fire-and-forget flush is in
    the queue.  Applied to the snapshot, after flushEntry returned, the
    closure finds the node and writes [flushed], a local of the call that
    returned, through the reference it captured: the node is not removed
    by a defined execution.  The blocking flush of the same cache, which
    applies the same closure while the call is in progress, returns true
    and leaves the snapshot without the node. *)
Theorem processEntry_expired_flush_dangling :
  (∃ c',
     processEntry exampleProcess 10 exampleCacheStaleNode = Ok (tt, c') ∧
     entries_ c' !! 10%N = None ∧
     swUpdates (sw_ c') = [flushEntry_updateFn_queued 1 10] ∧
     nodeOf 1 10 (swState (sw_ c')) = Some (EntryFields 10 5 3 7) ∧
     flushEntry_updateFn_queued 1 10 (swState (sw_ c')) = Err DanglingWrite ∧
     applyUpdates (swUpdates (sw_ c')) (swState (sw_ c')) = Err DanglingWrite) ∧
  (∃ c'',
     flushEntryBlocking 10 exampleCacheStaleNode = Ok (true, c'') ∧
     nodeOf 1 10 (swState (sw_ c'')) = None).
Proof.
  split.
  - exists (withUpdate (flushEntry_updateFn_queued 1 10)
              (withEntries ∅ exampleCacheStaleNode)).
    repeat (split; [reflexivity|]). reflexivity.
  - exists {| entries_ := ∅; vlanID_ := 1%N; intfID_ := 7%N;
              sw_ := {| swState := modify 1 ∅ exampleStateNode; swUpdates := [] |} |}.
    split; reflexivity.
Qed.

(** ** The invariant of the cache map *)

Section Invariant.

Implicit Types (c : NeighborCacheImpl) (e : NeighborCacheEntry)
  (f : NeighborEntryFields).

Lemma cache_wf_withEntries_insert c a e :
  cache_wf c → getIP e = a →
  cache_wf (withEntries (<[a := e]> (entries_ c)) c).
Proof.
  intros Hwf He b e'. simpl. rewrite lookup_insert.
  case_decide; [by intros [= <-]; subst | apply Hwf].
Qed.

Lemma cache_wf_withEntries_delete c a :
  cache_wf c → cache_wf (withEntries (delete a (entries_ c)) c).
Proof.
  intros Hwf b e'. simpl. rewrite lookup_delete.
  case_decide; [done | apply Hwf].
Qed.

Lemma cache_wf_withUpdate c fn : cache_wf c → cache_wf (withUpdate fn c).
Proof. intros Hwf b e'. apply Hwf. Qed.

Lemma setEntryInternal_stored f state c :
  setEntryInternal f state true c
  = Ok (Some (stored (entries_ c !! ip f) f state),
        withEntries (<[ip f := stored (entries_ c !! ip f) f state]> (entries_ c)) c).
Proof.
  destruct (entries_ c !! ip f) as [e|] eqn:H; simpl.
  - by apply setEntryInternal_found.
  - by apply setEntryInternal_create.
Qed.

Lemma stored_ip c f state :
  cache_wf c → getIP (stored (entries_ c !! ip f) f state) = ip f.
Proof.
  intros Hwf. destruct (entries_ c !! ip f) as [e|] eqn:H; simpl; [|done].
  apply refreshed_ip. by apply Hwf.
Qed.

Lemma forEach_cons {A} (item : A) (rest : list A) (body : A → M unit) c :
  forEach (item :: rest) body c
  = match body item c with
    | Ok (_, c') => forEach rest body c'
    | Err err => Err err
    end.
Proof. simpl. unfold bind. by destruct (body item c) as [[? ?]|]. Qed.

Lemma forEach_preserves {A} (items : list A) (body : A → M unit) :
  (∀ item, preserves (body item)) → preserves (forEach items body).
Proof.
  intros Hbody. induction items as [|item rest IH]; intros c Hwf; simpl.
  - by exists c.
  - unfold bind. destruct (Hbody item c Hwf) as (c1 & -> & Hwf1).
    apply IH, Hwf1.
Qed.

Lemma setEntry_preserves a m p state : preserves (setEntry a m p state).
Proof.
  intros c Hwf. destruct (entries_ c !! a) as [e|] eqn:H.
  - rewrite (setEntry_found _ _ _ _ _ _ H). eexists; split; [done|].
    apply cache_wf_withUpdate, cache_wf_withEntries_insert; [done|].
    apply (refreshed_ip e (EntryFields a m p (intfID_ c))). by apply Hwf.
  - rewrite (setEntry_create _ _ _ _ _ H). eexists; split; [done|].
    by apply cache_wf_withUpdate, cache_wf_withEntries_insert.
Qed.

Lemma setExistingEntry_preserves a m p state :
  preserves (setExistingEntry a m p state).
Proof.
  intros c Hwf. destruct (entries_ c !! a) as [e|] eqn:H.
  - rewrite (setExistingEntry_found _ _ _ _ _ _ H). by apply setEntry_preserves.
  - rewrite (setExistingEntry_absent _ _ _ _ _ H). by exists c.
Qed.

Lemma setPendingEntry_preserves a force : preserves (setPendingEntry a force).
Proof.
  intros c Hwf. destruct (entries_ c !! a) as [e|] eqn:H.
  - destruct force.
    + rewrite (setPendingEntry_forced _ _ _ H). eexists; split; [done|].
      apply cache_wf_withUpdate, cache_wf_withEntries_insert; [done|].
      apply (refreshed_ip e (EntryFieldsPending a (intfID_ c))). by apply Hwf.
    + rewrite (setPendingEntry_kept _ _ _ H). by exists c.
  - rewrite (setPendingEntry_create _ _ _ H). eexists; split; [done|].
    by apply cache_wf_withUpdate, cache_wf_withEntries_insert.
Qed.

Lemma repopulate_preserves table : preserves (repopulate table).
Proof.
  apply forEach_preserves. intros [k f] c Hwf.
  unfold repopulate_body, bind. simpl.
  rewrite setEntryInternal_stored. eexists; split; [done|].
  apply cache_wf_withEntries_insert; [done|]. by apply stored_ip.
Qed.

Lemma portDown_preserves p : preserves (portDown p).
Proof.
  intros c Hwf. unfold portDown.
  refine (forEach_preserves (map_to_list (entries_ c)) _ _ c Hwf).
  intros [k e0] c1 Hwf1. unfold portDown_body, bind, getCacheEntry. simpl.
  destruct (entries_ c1 !! k) as [e|]; [|by exists c1].
  destruct (negb (getPortID e =? p)%N); [by exists c1|].
  by apply setPendingEntry_preserves.
Qed.

Lemma runOp_preserves op : preserves (runOp op).
Proof.
  destruct op; simpl.
  - apply setEntry_preserves.
  - apply setExistingEntry_preserves.
  - apply setPendingEntry_preserves.
  - apply repopulate_preserves.
  - apply portDown_preserves.
Qed.

End Invariant.

(** ** The assertions of programEntry and programPendingEntry *)

(** C9: on a well-formed cache (the empty cache is one) every script of
    setEntry, setExistingEntry, setPendingEntry, repopulate and portDown
    returns, so that no CHECK fired, and the cache it leaves is well-formed;
    and whenever [setEntryInternal] returns an entry, the pending flag of the
    entry is the one of the fields it was given. *)
Theorem checks_never_fire (ops : list Op) (c : NeighborCacheImpl)
    (f : NeighborEntryFields) (st : NeighborEntryState) (add : bool) :
  cache_wf c →
  (∃ c', runOps ops c = Ok (tt, c') ∧ cache_wf c') ∧
  match setEntryInternal f st add c with
  | Ok (Some e, _) => isPending e = pending f
  | Ok (None, _) => add = false ∧ entries_ c !! ip f = None
  | Err _ => False
  end.
Proof.
  intros Hwf. split.
  - apply forEach_preserves; [apply runOp_preserves | done].
  - destruct (entries_ c !! ip f) as [e0|] eqn:H.
    + rewrite (setEntryInternal_found _ _ _ _ _ H). apply refreshed_fields.
    + destruct add.
      * by rewrite (setEntryInternal_create _ _ _ H).
      * by rewrite (setEntryInternal_absent _ _ _ H).
Qed.

Lemma cache_wf_exampleCache : cache_wf exampleCache.
Proof. intros a e H. vm_compute in H. discriminate H. Defined.

Lemma checks_never_fire_witness :
  (∃ c', runOps exampleOps exampleCache = Ok (tt, c') ∧ cache_wf c') ∧
  match setEntryInternal (EntryFieldsPending 10 7) INCOMPLETE true exampleCache with
  | Ok (Some e, _) => isPending e = true
  | Ok (None, _) => true = false ∧ entries_ exampleCache !! 10%N = None
  | Err _ => False
  end.
Proof.
  apply (checks_never_fire exampleOps exampleCache (EntryFieldsPending 10 7)
           INCOMPLETE true cache_wf_exampleCache).
Defined.

(** ** repopulate *)

Section Repopulate.

Implicit Types (c : NeighborCacheImpl) (f : NeighborEntryFields)
  (table : gmap N NeighborEntryFields).

Lemma repopulate_loop (items : list (N * NeighborEntryFields)) c :
  NoDup items.*1 →
  (∀ k f, (k, f) ∈ items → ip f = k) →
  ∃ c', forEach items repopulate_body c = Ok (tt, c') ∧
    sw_ c' = sw_ c ∧ vlanID_ c' = vlanID_ c ∧ intfID_ c' = intfID_ c ∧
    ∀ k, entries_ c' !! k =
         match (list_to_map items : gmap N NeighborEntryFields) !! k with
         | Some f => Some (stored (entries_ c !! k) f (seeded f))
         | None => entries_ c !! k
         end.
Proof.
  revert c. induction items as [|[k f] rest IH]; intros c Hnd Hip.
  - exists c. simpl. repeat split; try done.
  - apply NoDup_cons in Hnd as [Hk Hnd].
    assert (ip f = k) as Hf by (apply Hip; left).
    set (c1 := withEntries (<[k := stored (entries_ c !! k) f (seeded f)]> (entries_ c)) c).
    assert (repopulate_body (k, f) c = Ok (tt, c1)) as Hbody.
    { unfold repopulate_body, bind. simpl. rewrite setEntryInternal_stored. by rewrite Hf. }
    rewrite forEach_cons, Hbody.
    destruct (IH c1 Hnd) as (c' & -> & Hsw & Hv & Hi & Hl).
    { intros k' f' Hin. apply Hip. by right. }
    exists c'. repeat split; try done. intros j.
    rewrite (Hl j), list_to_map_cons.
    destruct (decide (j = k)) as [->|Hne].
    + rewrite lookup_insert_eq, (not_elem_of_list_to_map_1 _ _ Hk).
      unfold c1; simpl. by rewrite lookup_insert_eq.
    + rewrite (lookup_insert_ne _ k j) by done.
      unfold c1; simpl. by rewrite (lookup_insert_ne _ k j) by done.
Qed.

Lemma repopulate_result table c :
  table_wf table →
  ∃ c', repopulate table c = Ok (tt, c') ∧
    sw_ c' = sw_ c ∧ vlanID_ c' = vlanID_ c ∧ intfID_ c' = intfID_ c ∧
    ∀ k, entries_ c' !! k =
         match table !! k with
         | Some f => Some (stored (entries_ c !! k) f (seeded f))
         | None => entries_ c !! k
         end.
Proof.
  intros Hwf.
  destruct (repopulate_loop (map_to_list table) c) as (c' & Hr & Hsw & Hv & Hi & Hl).
  - apply NoDup_fst_map_to_list.
  - intros k f Hin. apply Hwf. by apply elem_of_map_to_list.
  - exists c'. repeat split; try done.
    intros k. rewrite (Hl k). by rewrite list_to_map_to_list.
Qed.

End Repopulate.

(** C7: [repopulate table] returns and submits no transform; for every node
    [f] of the table, the cache then has an entry under the address of
    [f] whose state is INCOMPLETE if [f] is pending and STALE otherwise,
    never REACHABLE, and whose MAC, port and pending flag are those of [f]:
    it is the new entry made of [f] when the map had none, and the entry
    of the map with its fields updated (when they did not match) and its
    state set when the map had one; the other addresses keep what they
    had. *)
Theorem repopulate_seeds_state (table : gmap N NeighborEntryFields)
    (c : NeighborCacheImpl) :
  table_wf table →
  ∃ c',
    repopulate table c = Ok (tt, c') ∧
    sw_ c' = sw_ c ∧
    (∀ a f, table !! a = Some f →
       ∃ e',
         entries_ c' !! a = Some e' ∧
         getState e' = (if pending f then INCOMPLETE else STALE) ∧
         getState e' ≠ REACHABLE ∧
         getMac e' = mac f ∧ getPortID e' = port f ∧ isPending e' = pending f ∧
         (entries_ c !! a = None →
          e' = {| fields_ := f;
                  state_ := if pending f then INCOMPLETE else STALE |}) ∧
         (∀ e, entries_ c !! a = Some e →
          e' = updateState
                 (if negb (fieldsMatch e f) then updateFields e f else e)
                 (if pending f then INCOMPLETE else STALE))) ∧
    (∀ a, table !! a = None → entries_ c' !! a = entries_ c !! a).
Proof.
  intros Hwf.
  destruct (repopulate_result table c Hwf) as (c' & Hr & Hsw & _ & _ & Hl).
  exists c'. split; [done|]. split; [done|]. split.
  - intros a f Ha. eexists. split; [by rewrite (Hl a), Ha|].
    unfold seeded. destruct (entries_ c !! a) as [e|] eqn:He; simpl.
    + pose proof (refreshed_fields e f (if pending f then INCOMPLETE else STALE))
        as (Hm & Hp & Hpe).
      repeat split; try done.
      * by destruct (pending f).
      * by intros e0 [= <-].
    + repeat split; try done. by destruct (pending f).
  - intros a Ha. by rewrite (Hl a), Ha.
Qed.

Lemma table_wf_exampleTable : table_wf exampleTable.
Proof.
  intros a f H. unfold exampleTable in H.
  apply lookup_insert_Some in H as [[<- <-]|[_ H]]; [done|].
  apply lookup_singleton_Some in H as [<- <-]. done.
Defined.

Lemma repopulate_seeds_state_witness :
  ∃ c',
    repopulate exampleTable exampleCache1 = Ok (tt, c') ∧
    entries_ c' !! 10%N
    = Some {| fields_ := EntryFields 10 8 4 7; state_ := STALE |} ∧
    entries_ c' !! 13%N
    = Some {| fields_ := EntryFieldsPending 13 7; state_ := INCOMPLETE |}.
Proof.
  destruct (repopulate_seeds_state exampleTable exampleCache1 table_wf_exampleTable)
    as (c' & Hr & _ & Hin & _).
  exists c'. split; [exact Hr|]. split.
  - destruct (Hin 10%N (EntryFields 10 8 4 7) eq_refl)
      as (e' & -> & _ & _ & _ & _ & _ & _ & He).
    by rewrite (He {| fields_ := EntryFields 10 5 3 7; state_ := REACHABLE |} eq_refl).
  - destruct (Hin 13%N (EntryFieldsPending 13 7) eq_refl)
      as (e' & -> & _ & _ & _ & _ & _ & He & _).
    by rewrite (He eq_refl).
Defined.

(** ** portDown *)

Section PortDown.

Variable p : N.

Implicit Types (c : NeighborCacheImpl) (e : NeighborCacheEntry).

Lemma pended_fields intf e :
  ip (fields_ (pended intf e)) = getIP e ∧
  mac (fields_ (pended intf e)) = 0%N ∧
  port (fields_ (pended intf e)) = 0%N ∧
  pending (fields_ (pended intf e)) = true ∧
  state_ (pended intf e) = INCOMPLETE.
Proof.
  split; [by apply (refreshed_ip e (EntryFieldsPending (getIP e) intf))|].
  pose proof (refreshed_fields e (EntryFieldsPending (getIP e) intf) INCOMPLETE)
    as (? & ? & ?).
  done.
Qed.

Lemma portDown_loop (items : list (N * NeighborCacheEntry)) c :
  NoDup items.*1 →
  (∀ k e, (k, e) ∈ items → entries_ c !! k = Some e ∧ getIP e = k) →
  ∃ c', forEach items (portDown_body p) c = Ok (tt, c') ∧
    vlanID_ c' = vlanID_ c ∧ intfID_ c' = intfID_ c ∧
    swState (sw_ c') = swState (sw_ c) ∧
    swUpdates (sw_ c')
    = swUpdates (sw_ c)
      ++ (pendingUpdate (intfID_ c) (vlanID_ c) <$> filter (onPort p) items) ∧
    ∀ k, entries_ c' !! k =
         match (list_to_map items : gmap N NeighborCacheEntry) !! k with
         | Some e => Some (if (getPortID e =? p)%N then pended (intfID_ c) e else e)
         | None => entries_ c !! k
         end.
Proof.
  revert c. induction items as [|[k e] rest IH]; intros c Hnd Hlive.
  - exists c. simpl. rewrite app_nil_r. repeat split; done.
  - apply NoDup_cons in Hnd as [Hk Hnd].
    destruct (Hlive k e) as [He Hip]; [left|].
    assert (∀ k' e', (k', e') ∈ rest → k' ≠ k) as Hrest.
    { intros k' e' Hin ->. apply Hk. apply list_elem_of_fmap.
      by exists (k, e'). }
    rewrite forEach_cons, list_to_map_cons.
    destruct (getPortID e =? p)%N eqn:Hp.
    + set (c1 := withUpdate (pendingUpdate (intfID_ c) (vlanID_ c) (k, e))
                   (withEntries (<[k := pended (intfID_ c) e]> (entries_ c)) c)).
      assert (portDown_body p (k, e) c = Ok (tt, c1)) as ->.
      { unfold portDown_body, bind, getCacheEntry. simpl. rewrite He, Hp. simpl.
        rewrite Hip. rewrite (setPendingEntry_forced k c e He).
        unfold c1, pendingUpdate, pended. simpl. by rewrite Hip. }
      destruct (IH c1 Hnd) as (c' & -> & Hv & Hi & Hs & Hu & Hl).
      { intros k' e' Hin. destruct (Hlive k' e') as [? ?]; [by right|].
        split; [|done]. unfold c1; simpl.
        rewrite lookup_insert_ne; [done|]. intros <-. by eapply Hrest. }
      exists c'. repeat split; try done.
      * rewrite Hu. unfold c1; simpl. rewrite filter_cons_True by (by apply N.eqb_eq).
        by rewrite fmap_cons, <-app_assoc.
      * intros j. rewrite (Hl j). destruct (decide (j = k)) as [->|Hne].
        -- rewrite lookup_insert_eq, (not_elem_of_list_to_map_1 _ _ Hk), Hp.
           unfold c1; simpl. by rewrite lookup_insert_eq.
        -- rewrite (lookup_insert_ne _ k j) by done.
           unfold c1; simpl. by rewrite (lookup_insert_ne _ k j) by done.
    + assert (portDown_body p (k, e) c = Ok (tt, c)) as ->.
      { unfold portDown_body, bind, getCacheEntry. simpl. by rewrite He, Hp. }
      destruct (IH c Hnd) as (c' & -> & Hv & Hi & Hs & Hu & Hl).
      { intros k' e' Hin. apply Hlive. by right. }
      exists c'. repeat split; try done.
      * rewrite Hu. rewrite filter_cons_False; [done|].
        unfold onPort; simpl. by apply N.eqb_neq.
      * intros j. rewrite (Hl j). destruct (decide (j = k)) as [->|Hne].
        -- by rewrite lookup_insert_eq, (not_elem_of_list_to_map_1 _ _ Hk), Hp.
        -- by rewrite (lookup_insert_ne _ k j) by done.
Qed.

Lemma portDown_result c :
  cache_wf c →
  ∃ c', portDown p c = Ok (tt, c') ∧
    vlanID_ c' = vlanID_ c ∧ intfID_ c' = intfID_ c ∧
    swState (sw_ c') = swState (sw_ c) ∧
    swUpdates (sw_ c')
    = swUpdates (sw_ c)
      ++ (pendingUpdate (intfID_ c) (vlanID_ c)
            <$> filter (onPort p) (map_to_list (entries_ c))) ∧
    ∀ k, entries_ c' !! k =
         match entries_ c !! k with
         | Some e => Some (if (getPortID e =? p)%N then pended (intfID_ c) e else e)
         | None => None
         end.
Proof.
  intros Hwf.
  destruct (portDown_loop (map_to_list (entries_ c)) c)
    as (c' & Hr & Hv & Hi & Hs & Hu & Hl).
  - apply NoDup_fst_map_to_list.
  - intros k e Hin. apply elem_of_map_to_list in Hin. split; [done|]. by apply Hwf.
  - exists c'. repeat split; try done.
    intros k. rewrite (Hl k), list_to_map_to_list.
    by destruct (entries_ c !! k).
Qed.

End PortDown.

(** The executable test decides the invariant of the cache map. *)
Lemma cache_wfb_correct c : cache_wfb c = true → cache_wf c.
Proof.
  unfold cache_wfb. rewrite forallb_forall. intros H a e Ha.
  apply N.eqb_eq.
  apply (H (a, e)), list_elem_of_In. by apply elem_of_map_to_list.
Qed.

(** C6: on a well-formed cache [portDown p] returns, and
    - every entry whose port is [p] is replaced by the entry that
      [setPendingEntry] with force makes of it: same address, MAC cleared,
      pending, state INCOMPLETE; the forced transform of
      programPendingEntry for its fields was submitted, which on a snapshot
      that passes the validation returns a snapshot where the node of the
      address is the pending node, whatever node was there;
    - every entry whose port is not [p] is the same entry afterwards, and no
      transform that was submitted changes the node of its address;
    - an address without entry has none afterwards. *)
Theorem portDown_pends_port (c : NeighborCacheImpl) (p : N) :
  cache_wf c →
  ∃ c' fns,
    portDown p c = Ok (tt, c') ∧
    swState (sw_ c') = swState (sw_ c) ∧
    swUpdates (sw_ c') = swUpdates (sw_ c) ++ fns ∧
    (∀ a e, entries_ c !! a = Some e → getPortID e = p →
       ∃ e',
         entries_ c' !! a = Some e' ∧
         getIP e' = a ∧ getMac e' = 0%N ∧ isPending e' = true ∧
         getState e' = INCOMPLETE ∧
         programPendingEntry_updateFn (getFields e') (vlanID_ c) true ∈ fns ∧
         ∀ state,
           ncachehelpers.checkVlanAndIntf state (getFields e') (vlanID_ c) = true →
           ∃ state',
             programPendingEntry_updateFn (getFields e') (vlanID_ c) true state
             = Ok (Some state') ∧
             nodeOf (vlanID_ c) a state'
             = Some (EntryFieldsPending a (interfaceID (getFields e')))) ∧
    (∀ a e, entries_ c !! a = Some e → getPortID e ≠ p →
       entries_ c' !! a = Some e ∧
       ∀ fn state state', fn ∈ fns → fn state = Ok (Some state') →
         nodeOf (vlanID_ c) a state' = nodeOf (vlanID_ c) a state) ∧
    (∀ a, entries_ c !! a = None → entries_ c' !! a = None).
Proof.
  intros Hwf.
  destruct (portDown_result p c Hwf) as (c' & Hr & _ & _ & Hs & Hu & Hl).
  exists c', (pendingUpdate (intfID_ c) (vlanID_ c)
               <$> filter (onPort p) (map_to_list (entries_ c))).
  split; [done|]. split; [done|]. split; [done|]. split; [|split].
  - intros a e Ha Hp. exists (pended (intfID_ c) e).
    destruct (pended_fields (intfID_ c) e) as (Hip & Hm & _ & Hpe & Hst).
    rewrite (Hwf a e Ha) in Hip.
    split; [by rewrite (Hl a), Ha, Hp, N.eqb_refl|].
    repeat split; try done.
    + apply (list_elem_of_fmap_2 (pendingUpdate (intfID_ c) (vlanID_ c)) _ (a, e)).
      apply list_elem_of_filter. split; [done|]. by apply elem_of_map_to_list.
    + intros state Hc.
      destruct (programPendingEntry_updateFn_force _ _ _ Hc) as (state' & Hfn & Hn & _).
      exists state'. split; [done|]. unfold getFields. by rewrite <-Hip.
  - intros a e Ha Hp. split.
    + rewrite (Hl a), Ha. by rewrite (proj2 (N.eqb_neq _ _) Hp).
    + intros fn state state' Hin Hfn.
      apply list_elem_of_fmap in Hin as ([k e0] & -> & Hin).
      apply list_elem_of_filter in Hin as [Hp0 Hin].
      apply elem_of_map_to_list in Hin.
      apply (programPendingEntry_updateFn_frame _ _ _ _ _ _ Hfn).
      destruct (pended_fields (intfID_ c) e0) as (Hip0 & _).
      change ((k, e0).2) with e0. rewrite Hip0, (Hwf k e0 Hin). intros ->.
      rewrite Ha in Hin. injection Hin as <-. by apply Hp.
  - intros a Ha. by rewrite (Hl a), Ha.
Qed.

Lemma portDown_pends_port_witness :
  ∃ c' fns,
    portDown 3 exampleCache2 = Ok (tt, c') ∧
    swUpdates (sw_ c') = fns ∧
    entries_ c' !! 10%N
    = Some {| fields_ := EntryFieldsPending 10 7; state_ := INCOMPLETE |} ∧
    programPendingEntry_updateFn (EntryFieldsPending 10 7) 1 true ∈ fns ∧
    entries_ c' !! 11%N
    = Some {| fields_ := EntryFields 11 6 4 7; state_ := STALE |} ∧
    entries_ c' !! 12%N = None.
Proof.
  destruct (portDown_pends_port exampleCache2 3
              (cache_wfb_correct exampleCache2 eq_refl))
    as (c' & fns & Hr & _ & Hu & Hon & Hoff & Hnone).
  exists c', fns. split; [exact Hr|]. split; [exact Hu|].
  assert (portDown 3 exampleCache2
          = Ok (tt, withUpdate (programPendingEntry_updateFn (EntryFieldsPending 10 7) 1 true)
                      (withEntries
                         {[ 10%N := {| fields_ := EntryFieldsPending 10 7;
                                       state_ := INCOMPLETE |};
                            11%N := {| fields_ := EntryFields 11 6 4 7;
                                       state_ := STALE |} ]}
                         exampleCache2))) as Hval by reflexivity.
  rewrite Hr in Hval. injection Hval as ->. simpl in Hu. subst fns.
  split; [reflexivity|]. split; [left|].
  split; [|by apply Hnone].
  by apply (Hoff 11%N {| fields_ := EntryFields 11 6 4 7; state_ := STALE |}).
Defined.

(** * Further properties *)

(** ** What the transforms leave alone *)

Section TransformFrames.

Implicit Types (f : NeighborEntryFields) (s : SwitchState) (vlan : Vlan).

(** Whatever snapshot a transform of the cache returns, it is the snapshot
    it was given with another table in the VLAN, which was there. *)
Lemma updateFn_modify f vlanID force a s s' :
  programEntry_updateFn f vlanID s = Ok (Some s') ∨
  programPendingEntry_updateFn f vlanID force s = Ok (Some s') ∨
  flushEntry_updateFn vlanID a s = Ok (Some s') →
  ∃ vlan table, getVlanIf vlanID s = Some vlan ∧ s' = modify vlanID table s.
Proof.
  intros [H|[H|H]].
  - unfold programEntry_updateFn in H.
    destruct (ncachehelpers.checkVlanAndIntf s f vlanID); [|done]. simpl in H.
    destruct (getVlanIf vlanID s) as [vlan|]; [|done].
    destruct (getNodeIf (ip f) (neighborTable vlan)).
    + destruct (_ && _) in H; [done|]. injection H as <-. eauto.
    + injection H as <-. eauto.
  - unfold programPendingEntry_updateFn in H.
    destruct (ncachehelpers.checkVlanAndIntf s f vlanID); [|done]. simpl in H.
    destruct (getVlanIf vlanID s) as [vlan|]; [|done].
    destruct (getNodeIf (ip f) (neighborTable vlan)).
    + destruct force; [|done]. injection H as <-. eauto.
    + injection H as <-. eauto.
  - destruct (getVlanIf vlanID s) as [vlan|] eqn:Hv.
    + rewrite (flushEntry_updateFn_vlan _ _ _ _ Hv) in H.
      destruct (neighborTable vlan !! a); [|done]. injection H as <-. eauto.
    + by rewrite (flushEntry_updateFn_no_vlan _ _ _ Hv) in H.
Qed.

End TransformFrames.

(** X1: a new snapshot returned by the transform of programEntry, of
    programPendingEntry or of flushEntry has the same set of VLANs as the
    snapshot it was given, the same VLAN under every other id, and the same
    attachment of addresses to interfaces: no transform creates or deletes
    a VLAN or touches another one. *)
Theorem updateFn_keeps_other_vlans (f : NeighborEntryFields) (vlanID : N)
    (force : bool) (a : N) (s s' : SwitchState) :
  programEntry_updateFn f vlanID s = Ok (Some s') ∨
  programPendingEntry_updateFn f vlanID force s = Ok (Some s') ∨
  flushEntry_updateFn vlanID a s = Ok (Some s') →
  dom (vlans s') = dom (vlans s) ∧
  (∀ v, v ≠ vlanID → getVlanIf v s' = getVlanIf v s) ∧
  attached s' = attached s.
Proof.
  intros H. apply updateFn_modify in H as (vlan & table & Hv & ->).
  unfold getVlanIf in *. simpl. split; [|split; [|done]].
  - apply dom_insert_lookup_L. eauto.
  - intros v Hne. by rewrite lookup_insert_ne.
Qed.

Lemma updateFn_keeps_other_vlans_witness :
  ∃ s', programEntry_updateFn (EntryFields 10 5 3 7) 1 exampleState = Ok (Some s') ∧
        dom (vlans s') = dom (vlans exampleState) ∧
        (∀ v, v ≠ 1%N → getVlanIf v s' = getVlanIf v exampleState) ∧
        attached s' = attached exampleState.
Proof.
  eexists. split; [reflexivity|].
  apply (updateFn_keeps_other_vlans (EntryFields 10 5 3 7) 1 false 10 exampleState).
  left. reflexivity.
Defined.

(** X2: when the nodes of the table of the VLAN are stored under their own
    address, so are the nodes of the table in any snapshot a transform of
    the cache returns. *)
Theorem updateFn_keeps_table_wf (f : NeighborEntryFields) (vlanID : N)
    (force : bool) (a : N) (s s' : SwitchState) (vlan : Vlan) :
  getVlanIf vlanID s = Some vlan →
  table_wf (neighborTable vlan) →
  programEntry_updateFn f vlanID s = Ok (Some s') ∨
  programPendingEntry_updateFn f vlanID force s = Ok (Some s') ∨
  flushEntry_updateFn vlanID a s = Ok (Some s') →
  ∃ vlan', getVlanIf vlanID s' = Some vlan' ∧ table_wf (neighborTable vlan').
Proof.
  intros Hv Hwf H.
  assert (∀ b n (t : gmap N NeighborEntryFields),
            table_wf t → ip n = b → table_wf (<[b := n]> t)) as Hins.
  { intros b n t Ht Hn b' n'. rewrite lookup_insert.
    case_decide; [by intros [= <-]; subst | apply Ht]. }
  assert (∀ b (t : gmap N NeighborEntryFields),
            table_wf t → table_wf (delete b t)) as Hdel.
  { intros b t Ht b' n'. rewrite lookup_delete. case_decide; [done | apply Ht]. }
  destruct H as [H|[H|H]].
  - unfold programEntry_updateFn in H.
    destruct (ncachehelpers.checkVlanAndIntf s f vlanID); [|done]. simpl in H.
    rewrite Hv in H.
    destruct (getNodeIf (ip f) (neighborTable vlan)).
    + destruct (_ && _) in H; [done|]. injection H as <-.
      rewrite getVlanIf_modify. eexists; split; [done|]. by apply Hins.
    + injection H as <-.
      rewrite getVlanIf_modify. eexists; split; [done|]. by apply Hins.
  - unfold programPendingEntry_updateFn in H.
    destruct (ncachehelpers.checkVlanAndIntf s f vlanID); [|done]. simpl in H.
    rewrite Hv in H.
    destruct (getNodeIf (ip f) (neighborTable vlan)).
    + destruct force; [|done]. injection H as <-.
      rewrite getVlanIf_modify. eexists; split; [done|].
      apply Hins; [by apply Hdel | done].
    + injection H as <-.
      rewrite getVlanIf_modify. eexists; split; [done|]. by apply Hins.
  - rewrite (flushEntry_updateFn_vlan _ _ _ _ Hv) in H.
    destruct (neighborTable vlan !! a); [|done]. injection H as <-.
    rewrite getVlanIf_modify. eexists; split; [done|]. by apply Hdel.
Qed.

Lemma table_wf_empty : table_wf ∅.
Proof. intros a f H. by rewrite lookup_empty in H. Defined.

Lemma updateFn_keeps_table_wf_witness :
  ∃ s' vlan',
    programPendingEntry_updateFn (EntryFieldsPending 10 7) 1 true exampleState
    = Ok (Some s') ∧
    getVlanIf 1 s' = Some vlan' ∧ table_wf (neighborTable vlan').
Proof.
  eexists.
  destruct (updateFn_keeps_table_wf (EntryFieldsPending 10 7) 1 true 10
              exampleState
              (modify 1 {[ 10%N := EntryFieldsPending 10 7 ]} exampleState)
              {| neighborTable := ∅ |} eq_refl table_wf_empty)
    as (vlan' & Hv & Hwf).
  - right; left. reflexivity.
  - exists vlan'. split; [reflexivity|]. split; [exact Hv | exact Hwf].
Defined.

(** ** What the transforms do to the node of their address *)

Section TransformEffects.

Implicit Types (f : NeighborEntryFields) (s : SwitchState) (vlan : Vlan).

Lemma is_Some_getVlanIf_modify vlanID table s :
  is_Some (getVlanIf vlanID (modify vlanID table s)).
Proof. rewrite getVlanIf_modify. eauto. Qed.

Lemma nodeOf_modify_ne vlanID table s vlan b :
  getVlanIf vlanID s = Some vlan →
  table !! b = neighborTable vlan !! b →
  nodeOf vlanID b (modify vlanID table s) = nodeOf vlanID b s.
Proof.
  intros Hv Hb. rewrite nodeOf_modify. unfold nodeOf, getNodeIf. by rewrite Hv.
Qed.

(** The transform of programEntry for resolved fields, on a snapshot that
    passes the validation and whose node of the address, if any, carries
    the address. *)
Lemma programEntry_apply f vlanID s :
  is_Some (getVlanIf vlanID s) →
  isIpAttached (ip f) (interfaceID f) s = true →
  pending f = false →
  (∀ n, nodeOf vlanID (ip f) s = Some n → ip n = ip f) →
  ∃ changed s',
    applyUpdate (programEntry_updateFn f vlanID) s = Ok (changed, s') ∧
    nodeOf vlanID (ip f) s' = Some f ∧
    (∀ b, b ≠ ip f → nodeOf vlanID b s' = nodeOf vlanID b s) ∧
    is_Some (getVlanIf vlanID s') ∧ attached s' = attached s ∧
    (changed = false ↔ nodeOf vlanID (ip f) s = Some f).
Proof.
  intros [vlan Hv] Hat Hp Hip.
  assert (ncachehelpers.checkVlanAndIntf s f vlanID = true) as Hc
    by (apply checkVlanAndIntf_spec; rewrite Hv; eauto).
  unfold applyUpdate.
  destruct (programEntry_updateFn f vlanID s) as [[s1|]|err] eqn:Hfn.
  - exists true, s1.
    assert (s1 = modify vlanID (<[ip f := f]> (neighborTable vlan)) s) as ->.
    { unfold programEntry_updateFn in Hfn. rewrite Hc, Hv in Hfn. simpl in Hfn.
      destruct (getNodeIf (ip f) (neighborTable vlan)).
      - destruct (_ && _) in Hfn; [done|]. by injection Hfn as <-.
      - by injection Hfn as <-. }
    split; [done|]. split; [by rewrite nodeOf_modify, lookup_insert_eq|].
    split; [|split; [apply is_Some_getVlanIf_modify|split; [done|]]].
    + intros b Hb. apply (nodeOf_modify_ne _ _ _ vlan); [done|].
      by rewrite lookup_insert_ne.
    + split; [done|]. intros Hn.
      assert (programEntry_updateFn f vlanID s = Ok None) as Hnoop.
      { apply programEntry_updateFn_valid; [done|]. by exists f. }
      by rewrite Hnoop in Hfn.
  - exists false, s.
    apply programEntry_updateFn_valid in Hfn
      as (n & Hn & Hm & Hpo & Hi & Hpe); [|done].
    assert (n = f) as ->.
    { pose proof (Hip n Hn) as Hipn. destruct n, f; simpl in *. congruence. }
    split; [done|]. split; [done|]. split; [done|].
    split; [by rewrite Hv; eauto|]. done.
  - unfold programEntry_updateFn in Hfn. rewrite Hc, Hv in Hfn. simpl in Hfn.
    destruct (getNodeIf (ip f) (neighborTable vlan)); [|done].
    by destruct (_ && _) in Hfn.
Qed.

(** The transform of programPendingEntry on a snapshot that passes the
    validation, when it is forced or the address has no node. *)
Lemma programPendingEntry_apply f vlanID force s :
  is_Some (getVlanIf vlanID s) →
  isIpAttached (ip f) (interfaceID f) s = true →
  force = true ∨ nodeOf vlanID (ip f) s = None →
  ∃ s',
    applyUpdate (programPendingEntry_updateFn f vlanID force) s = Ok (true, s') ∧
    nodeOf vlanID (ip f) s' = Some (EntryFieldsPending (ip f) (interfaceID f)) ∧
    (∀ b, b ≠ ip f → nodeOf vlanID b s' = nodeOf vlanID b s) ∧
    is_Some (getVlanIf vlanID s') ∧ attached s' = attached s.
Proof.
  intros [vlan Hv] Hat Hforce.
  assert (ncachehelpers.checkVlanAndIntf s f vlanID = true) as Hc
    by (apply checkVlanAndIntf_spec; rewrite Hv; eauto).
  unfold applyUpdate, programPendingEntry_updateFn. rewrite Hc, Hv. simpl.
  assert (nodeOf vlanID (ip f) s = getNodeIf (ip f) (neighborTable vlan)) as Hnode
    by (unfold nodeOf; by rewrite Hv).
  destruct (getNodeIf (ip f) (neighborTable vlan)) as [n|] eqn:Hn.
  - destruct Hforce as [-> | Hnone]; [|by rewrite Hnone in Hnode]. simpl.
    eexists. split; [done|].
    unfold addPendingEntry, removeEntry_table.
    split; [by rewrite nodeOf_modify, lookup_insert_eq|].
    split; [|split; [apply is_Some_getVlanIf_modify|done]].
    intros b Hb. apply (nodeOf_modify_ne _ _ _ vlan); [done|].
    by rewrite lookup_insert_ne, lookup_delete_ne.
  - eexists. split; [done|]. unfold addPendingEntry.
    split; [by rewrite nodeOf_modify, lookup_insert_eq|].
    split; [|split; [apply is_Some_getVlanIf_modify|done]].
    intros b Hb. apply (nodeOf_modify_ne _ _ _ vlan); [done|].
    by rewrite lookup_insert_ne.
Qed.

(** The transform of flushEntry on a snapshot that has the VLAN. *)
Lemma flushEntry_apply vlanID a s :
  is_Some (getVlanIf vlanID s) →
  ∃ s',
    applyUpdate (flushEntry_updateFn vlanID a) s
    = Ok (bool_decide (is_Some (nodeOf vlanID a s)), s') ∧
    nodeOf vlanID a s' = None ∧
    (∀ b, b ≠ a → nodeOf vlanID b s' = nodeOf vlanID b s) ∧
    is_Some (getVlanIf vlanID s') ∧ attached s' = attached s.
Proof.
  intros [vlan Hv]. unfold applyUpdate.
  rewrite (flushEntry_updateFn_vlan _ _ _ _ Hv).
  assert (nodeOf vlanID a s = neighborTable vlan !! a) as Hnode
    by (unfold nodeOf, getNodeIf; by rewrite Hv).
  rewrite Hnode. destruct (neighborTable vlan !! a) as [n|] eqn:Hn; simpl.
  - eexists. split; [done|].
    split; [by rewrite nodeOf_modify, lookup_delete_eq|].
    split; [|split; [apply is_Some_getVlanIf_modify|done]].
    intros b Hb. apply (nodeOf_modify_ne _ _ _ vlan); [done|].
    by rewrite lookup_delete_ne.
  - exists s. split; [done|]. split; [by rewrite Hnode|].
    split; [done|]. split; [by rewrite Hv; eauto|done].
Qed.

End TransformEffects.

(** X3: on a snapshot with the VLAN, the address attached and a table whose
    nodes are stored under their own address, the application of the
    transform of programEntry for resolved fields [f] returns a snapshot in
    which the node of the address is [f], with every other node as before;
    it is a new version exactly when the node was not [f] already. *)
Theorem programEntry_updateFn_converges (f : NeighborEntryFields) (vlanID : N)
    (s : SwitchState) (vlan : Vlan) :
  getVlanIf vlanID s = Some vlan →
  table_wf (neighborTable vlan) →
  isIpAttached (ip f) (interfaceID f) s = true →
  pending f = false →
  ∃ changed s',
    applyUpdate (programEntry_updateFn f vlanID) s = Ok (changed, s') ∧
    nodeOf vlanID (ip f) s' = Some f ∧
    (∀ b, b ≠ ip f → nodeOf vlanID b s' = nodeOf vlanID b s) ∧
    (changed = false ↔ nodeOf vlanID (ip f) s = Some f).
Proof.
  intros Hv Hwf Hat Hp.
  assert (is_Some (getVlanIf vlanID s)) as Hsome by (rewrite Hv; eauto).
  assert (∀ n, nodeOf vlanID (ip f) s = Some n → ip n = ip f) as Hip.
  { intros n. unfold nodeOf. rewrite Hv. apply Hwf. }
  destruct (programEntry_apply f vlanID s Hsome Hat Hp Hip)
    as (ch & s' & Ha & Hn & Hfr & _ & _ & Hch).
  by exists ch, s'.
Qed.

Lemma programEntry_updateFn_converges_witness :
  ∃ changed s',
    applyUpdate (programEntry_updateFn (EntryFields 10 6 4 7) 1) exampleStateNode
    = Ok (changed, s') ∧
    nodeOf 1 10 s' = Some (EntryFields 10 6 4 7) ∧
    (∀ b, b ≠ 10%N → nodeOf 1 b s' = nodeOf 1 b exampleStateNode) ∧
    (changed = false ↔ nodeOf 1 10 exampleStateNode = Some (EntryFields 10 6 4 7)).
Proof.
  apply (programEntry_updateFn_converges (EntryFields 10 6 4 7) 1 exampleStateNode
           {| neighborTable := {[ 10%N := EntryFields 10 5 3 7 ]} |});
    try reflexivity.
  intros a f H. simpl in H. apply lookup_singleton_Some in H as [<- <-].
  reflexivity.
Defined.

(** Adding the node of an address that had none and flushing it gives
    back the snapshot. *)
Lemma programEntry_then_flush_restores_aux (f : NeighborEntryFields) (vlanID : N)
    (s : SwitchState) :
  is_Some (getVlanIf vlanID s) →
  isIpAttached (ip f) (interfaceID f) s = true →
  nodeOf vlanID (ip f) s = None →
  ∃ s1,
    programEntry_updateFn f vlanID s = Ok (Some s1) ∧
    flushEntry_updateFn vlanID (ip f) s1 = Ok (Some s) ∧
    flushEntry_updateFn vlanID (ip f) s = Ok None.
Proof.
  intros [vlan Hv] Hat Hn.
  assert (neighborTable vlan !! ip f = None) as Hn'
    by (unfold nodeOf in Hn; by rewrite Hv in Hn).
  eexists. split; [by apply (programEntry_updateFn_add f vlanID s vlan)|].
  split.
  - rewrite (flushEntry_updateFn_vlan _ _ _ _ (getVlanIf_modify _ _ _)). simpl.
    unfold addEntry. rewrite lookup_insert_eq. do 2 f_equal.
    unfold modify; simpl. rewrite insert_insert_eq.
    rewrite delete_insert_id by done.
    destruct s as [vs at_]; simpl in *. f_equal.
    apply insert_id. unfold getVlanIf in Hv; simpl in Hv. by destruct vlan.
  - by rewrite (flushEntry_updateFn_vlan _ _ _ _ Hv), Hn'.
Qed.

(** X4: on a snapshot with the VLAN, the address attached and no node for
    the address, the transform of programEntry followed by the transform of
    flushEntry gives back the snapshot it started from, and a second flush
    transform signals no-op. *)
Theorem programEntry_then_flush_restores (f : NeighborEntryFields) (vlanID : N)
    (s : SwitchState) :
  is_Some (getVlanIf vlanID s) →
  isIpAttached (ip f) (interfaceID f) s = true →
  nodeOf vlanID (ip f) s = None →
  ∃ s1,
    programEntry_updateFn f vlanID s = Ok (Some s1) ∧
    flushEntry_updateFn vlanID (ip f) s1 = Ok (Some s) ∧
    flushEntry_updateFn vlanID (ip f) s = Ok None.
Proof. apply programEntry_then_flush_restores_aux. Qed.

Lemma programEntry_then_flush_restores_witness :
  ∃ s1,
    programEntry_updateFn (EntryFields 10 5 3 7) 1 exampleState = Ok (Some s1) ∧
    flushEntry_updateFn 1 10 s1 = Ok (Some exampleState) ∧
    flushEntry_updateFn 1 10 exampleState = Ok None.
Proof.
  apply (programEntry_then_flush_restores (EntryFields 10 5 3 7) 1 exampleState);
    [by eexists | reflexivity | reflexivity].
Defined.

(** ** The operations on one address *)

Section OneAddress.

Variable process : NeighborCacheEntry → NeighborCacheEntry.

Implicit Types (c : NeighborCacheImpl) (e : NeighborCacheEntry).

Lemma cache_eq c c' :
  entries_ c' = entries_ c → vlanID_ c' = vlanID_ c → intfID_ c' = intfID_ c →
  sw_ c' = sw_ c → c' = c.
Proof. destruct c, c'; simpl; congruence. Qed.

Lemma processEntry_absent a c :
  entries_ c !! a = None → processEntry process a c = Ok (tt, c).
Proof. intros H. unfold processEntry, bind, getCacheEntry. by rewrite H. Qed.

Lemma processEntry_alive a c e :
  entries_ c !! a = Some e → getState (process e) ≠ EXPIRED →
  processEntry process a c
  = Ok (tt, withEntries (<[a := process e]> (entries_ c)) c).
Proof.
  intros H Hst. unfold processEntry, bind, getCacheEntry. rewrite H. simpl.
  by rewrite bool_decide_eq_false_2.
Qed.

Lemma processEntry_expired a c e :
  entries_ c !! a = Some e → getState (process e) = EXPIRED →
  processEntry process a c
  = Ok (tt, withUpdate (flushEntry_updateFn_queued (vlanID_ c) a)
              (withEntries (delete a (entries_ c)) c)).
Proof.
  intros H Hst.
  set (c1 := withEntries (<[a := process e]> (entries_ c)) c).
  pose proof (flushEntry_found a c1 (process e) (lookup_insert_eq _ _ _)) as Hfl.
  unfold processEntry, bind, getCacheEntry. rewrite H. simpl.
  rewrite bool_decide_eq_true_2 by done.
  unfold writeEntry, setEntries. fold (withEntries (<[a:=process e]> (entries_ c)) c).
  fold c1. rewrite Hfl. unfold c1; simpl. by rewrite delete_insert_eq.
Qed.

End OneAddress.

(** X5: setEntry, setExistingEntry, setPendingEntry, flushEntry (blocking or
    not) and processEntry on address [a], when they return, leave the entry
    of every other address, the VLAN and the interface of the cache as they
    were. *)
Theorem one_address_frame (process : NeighborCacheEntry → NeighborCacheEntry)
    (c c' : NeighborCacheImpl) (a b m p : N) (st : NeighborEntryState)
    (force blocking flushed : bool) :
  b ≠ a →
  setEntry a m p st c = Ok (tt, c') ∨
  setExistingEntry a m p st c = Ok (tt, c') ∨
  setPendingEntry a force c = Ok (tt, c') ∨
  flushEntry a blocking c = Ok (flushed, c') ∨
  processEntry process a c = Ok (tt, c') →
  entries_ c' !! b = entries_ c !! b ∧
  vlanID_ c' = vlanID_ c ∧ intfID_ c' = intfID_ c.
Proof.
  intros Hne H.
  assert (∀ x, setEntry a m p st c = Ok (tt, x) →
            entries_ x !! b = entries_ c !! b ∧
            vlanID_ x = vlanID_ c ∧ intfID_ x = intfID_ c) as Hset.
  { intros x Hx. destruct (entries_ c !! a) as [e|] eqn:He.
    - rewrite (setEntry_found _ _ _ _ _ _ He) in Hx. injection Hx as <-.
      simpl. by rewrite lookup_insert_ne.
    - rewrite (setEntry_create _ _ _ _ _ He) in Hx. injection Hx as <-.
      simpl. by rewrite lookup_insert_ne. }
  destruct H as [H|[H|[H|[H|H]]]].
  - by apply Hset.
  - destruct (entries_ c !! a) as [e|] eqn:He.
    + rewrite (setExistingEntry_found _ _ _ _ _ _ He) in H. by apply Hset.
    + rewrite (setExistingEntry_absent _ _ _ _ _ He) in H. by injection H as <-.
  - destruct (entries_ c !! a) as [e|] eqn:He.
    + destruct force.
      * rewrite (setPendingEntry_forced _ _ _ He) in H. injection H as <-.
        simpl. by rewrite lookup_insert_ne.
      * rewrite (setPendingEntry_kept _ _ _ He) in H. by injection H as <-.
    + rewrite (setPendingEntry_create _ _ _ He) in H. injection H as <-.
      simpl. by rewrite lookup_insert_ne.
  - destruct (entries_ c !! a) as [e|] eqn:He.
    + destruct blocking.
      * change (flushEntry a true c) with (flushEntryBlocking a c) in H.
        rewrite (flushEntryBlocking_found _ _ _ He) in H.
        destruct (SwSwitch_updateStateBlocking _ _) as [[fl sw']|]; [|done].
        injection H as _ <-. simpl. by rewrite lookup_delete_ne.
      * rewrite (flushEntry_found _ _ _ He) in H. injection H as _ <-.
        simpl. by rewrite lookup_delete_ne.
    + rewrite (flushEntry_absent _ _ _ He) in H. by injection H as _ <-.
  - destruct (entries_ c !! a) as [e|] eqn:He.
    + destruct (decide (getState (process e) = EXPIRED)) as [Hst|Hst].
      * rewrite (processEntry_expired _ _ _ _ He Hst) in H. injection H as <-.
        simpl. by rewrite lookup_delete_ne.
      * rewrite (processEntry_alive _ _ _ _ He Hst) in H. injection H as <-.
        simpl. by rewrite lookup_insert_ne.
    + rewrite (processEntry_absent _ _ _ He) in H. by injection H as <-.
Qed.

Lemma one_address_frame_witness :
  ∃ c', flushEntry 10 false exampleCache2 = Ok (true, c') ∧
        entries_ c' !! 11%N = entries_ exampleCache2 !! 11%N ∧
        vlanID_ c' = 1%N ∧ intfID_ c' = 7%N.
Proof.
  eexists. split; [reflexivity|].
  apply (one_address_frame exampleProcess exampleCache2 _ 10 11 0 0 REACHABLE
           false false true); [discriminate|].
  right; right; right; left. reflexivity.
Defined.

(** X6: setExistingEntry always returns and never changes the set of
    addresses of the cache: on an address without entry it returns the
    cache as it was, nothing created and nothing submitted; on an address
    with an entry the entry is refreshed in place. *)
Theorem setExistingEntry_keeps_addresses (c : NeighborCacheImpl) (a m p : N)
    (st : NeighborEntryState) :
  ∃ c',
    setExistingEntry a m p st c = Ok (tt, c') ∧
    dom (entries_ c') = dom (entries_ c) ∧
    match entries_ c !! a with
    | None => c' = c
    | Some e =>
        entries_ c' !! a = Some (refreshed e (EntryFields a m p (intfID_ c)) st)
    end.
Proof.
  destruct (entries_ c !! a) as [e|] eqn:He.
  - rewrite (setExistingEntry_found _ _ _ _ _ _ He), (setEntry_found _ _ _ _ _ _ He).
    eexists. split; [done|]. simpl. split; [|by rewrite lookup_insert_eq].
    apply dom_insert_lookup_L. eauto.
  - rewrite (setExistingEntry_absent _ _ _ _ _ He). by exists c.
Qed.

(** ** repopulate twice, portDown on an idle port *)

Lemma refreshed_stored old f state :
  refreshed (stored old f state) f state = stored old f state.
Proof.
  destruct old as [e|]; simpl; [apply refreshed_refreshed|].
  unfold refreshed, fieldsMatch; simpl.
  by rewrite !N.eqb_refl, Bool.eqb_reflx.
Qed.

(** X8: repopulate is idempotent: on a table whose nodes are stored under
    their own address, a second repopulate of the same table returns the
    cache the first one left. *)
Theorem repopulate_idempotent (table : gmap N NeighborEntryFields)
    (c : NeighborCacheImpl) :
  table_wf table →
  ∃ c1, repopulate table c = Ok (tt, c1) ∧ repopulate table c1 = Ok (tt, c1).
Proof.
  intros Hwf.
  destruct (repopulate_result table c Hwf) as (c1 & Hr1 & Hsw1 & Hv1 & Hi1 & Hl1).
  destruct (repopulate_result table c1 Hwf) as (c2 & Hr2 & Hsw2 & Hv2 & Hi2 & Hl2).
  exists c1. split; [done|]. rewrite Hr2. do 2 f_equal.
  apply cache_eq; try done.
  apply map_eq. intros k. rewrite (Hl2 k), (Hl1 k).
  destruct (table !! k) as [f|]; [|done]. simpl.
  by rewrite refreshed_stored.
Qed.

Lemma repopulate_idempotent_witness :
  ∃ c1, repopulate exampleTable exampleCache1 = Ok (tt, c1) ∧
        repopulate exampleTable c1 = Ok (tt, c1).
Proof. apply (repopulate_idempotent exampleTable exampleCache1 table_wf_exampleTable). Defined.

(** X9: when no entry of the cache is on port [p], [portDown p] returns the
    cache as it was: no entry changes and no transform is submitted. *)
Theorem portDown_idle_port (c : NeighborCacheImpl) (p : N) :
  (∀ a e, entries_ c !! a = Some e → getPortID e ≠ p) →
  portDown p c = Ok (tt, c).
Proof.
  intros Hoff. unfold portDown.
  induction (map_to_list (entries_ c)) as [|[k e0] rest IH]; [done|].
  rewrite forEach_cons.
  assert (portDown_body p (k, e0) c = Ok (tt, c)) as ->; [|done].
  unfold portDown_body, bind, getCacheEntry. simpl.
  destruct (entries_ c !! k) as [e|] eqn:He; [|done].
  by rewrite (proj2 (N.eqb_neq _ _) (Hoff k e He)).
Qed.

Lemma portDown_idle_port_witness : portDown 9 exampleCache2 = Ok (tt, exampleCache2).
Proof.
  apply (portDown_idle_port exampleCache2 9). intros a e H.
  unfold exampleCache2 in H. simpl in H.
  apply lookup_insert_Some in H as [[_ <-]|[_ H]]; [discriminate|].
  apply lookup_singleton_Some in H as [_ <-]. discriminate.
Defined.

(** ** isSolicited *)

(** X10: [isSolicited] always returns and leaves the cache as it was; its
    result is false on an address without entry, in particular after
    flushEntry; after setPendingEntry on an address without entry, or with
    force, it is true; after [setEntry] with state [st] it is true exactly
    when [st] is INCOMPLETE or PROBE. *)
Theorem isSolicited_after (c : NeighborCacheImpl) (a m p : N)
    (st : NeighborEntryState) (force : bool) :
  (∃ r, isSolicited a c = Ok (r, c) ∧
        (r = true → ∃ e, entries_ c !! a = Some e ∧ isProbing e = true)) ∧
  (∃ c' r, flushEntry a false c = Ok (r, c') ∧ isSolicited a c' = Ok (false, c')) ∧
  (∃ c', setEntry a m p st c = Ok (tt, c') ∧
         isSolicited a c'
         = Ok (bool_decide (st = INCOMPLETE ∨ st = PROBE), c')) ∧
  (force = true ∨ entries_ c !! a = None →
   ∃ c', setPendingEntry a force c = Ok (tt, c') ∧
         isSolicited a c' = Ok (true, c')).
Proof.
  assert (∀ x e, entries_ x !! a = Some e →
            isSolicited a x = Ok (isProbing e, x)) as Hsome.
  { intros x e H. unfold isSolicited, bind, getCacheEntry. by rewrite H. }
  assert (∀ x, entries_ x !! a = None → isSolicited a x = Ok (false, x)) as Hnone.
  { intros x H. unfold isSolicited, bind, getCacheEntry. by rewrite H. }
  assert (∀ e f, isProbing (refreshed e f st)
                 = bool_decide (st = INCOMPLETE ∨ st = PROBE)) as Hst.
  { intros e f. unfold isProbing. simpl. by destruct st. }
  split; [|split; [|split]].
  - destruct (entries_ c !! a) as [e|] eqn:He.
    + exists (isProbing e). split; [by apply Hsome|]. intros Hp. by exists e.
    + exists false. split; [by apply Hnone|]. done.
  - destruct (entries_ c !! a) as [e|] eqn:He.
    + rewrite (flushEntry_found _ _ _ He). eexists _, _. split; [done|].
      apply Hnone. simpl. apply lookup_delete_eq.
    + rewrite (flushEntry_absent _ _ _ He). eexists _, _. split; [done|].
      by apply Hnone.
  - destruct (entries_ c !! a) as [e|] eqn:He.
    + rewrite (setEntry_found _ _ _ _ _ _ He). eexists. split; [done|].
      erewrite Hsome; [|simpl; apply lookup_insert_eq]. by rewrite Hst.
    + rewrite (setEntry_create _ _ _ _ _ He). eexists. split; [done|].
      erewrite Hsome; [|simpl; apply lookup_insert_eq].
      f_equal. f_equal. apply (Hst {| fields_ := EntryFields a m p (intfID_ c);
                                      state_ := st |} (EntryFields a m p (intfID_ c))).
  - intros Hf. destruct (entries_ c !! a) as [e|] eqn:He.
    + destruct Hf as [-> | ?]; [|done].
      rewrite (setPendingEntry_forced _ _ _ He). eexists. split; [done|].
      erewrite Hsome; [|simpl; apply lookup_insert_eq]. done.
    + rewrite (setPendingEntry_create _ _ _ He). eexists. split; [done|].
      erewrite Hsome; [|simpl; apply lookup_insert_eq]. done.
Qed.

Lemma isSolicited_after_witness :
  isSolicited 11 exampleCache1 = Ok (false, exampleCache1) ∧
  (∃ c', setEntry 10 5 3 PROBE exampleCache1 = Ok (tt, c') ∧
         isSolicited 10 c' = Ok (true, c')) ∧
  (∃ c', setPendingEntry 10 true exampleCache1 = Ok (tt, c') ∧
         isSolicited 10 c' = Ok (true, c')).
Proof.
  destruct (isSolicited_after exampleCache1 10 5 3 PROBE true)
    as (_ & _ & Hset & Hpend).
  split; [reflexivity|]. split; [exact Hset|]. apply Hpend. by left.
Defined.

(** ** The tree mirrors the cache *)

Section Mirror.

(** The addresses of the subnets of the interface of the cache. *)
Variable A : N → Prop.

Implicit Types (c : NeighborCacheImpl) (e : NeighborCacheEntry)
  (f : NeighborEntryFields) (s : SwitchState).

Lemma applyUpdates_snoc fns fn s :
  applyUpdates (fns ++ [fn]) s
  = match applyUpdates fns s with
    | Ok s1 =>
        match applyUpdate fn s1 with
        | Ok (_, s2) => Ok s2
        | Err err => Err err
        end
    | Err err => Err err
    end.
Proof.
  revert s. induction fns as [|fn0 rest IH]; intros s; simpl.
  - by destruct (applyUpdate fn s) as [[? ?]|].
  - destruct (applyUpdate fn0 s) as [[? s1]|]; [apply IH|done].
Qed.

Lemma forEach_keeps {B} (I : NeighborCacheImpl → Prop) (items : list B)
    (body : B → M unit) :
  (∀ item, keeps I (body item)) → keeps I (forEach items body).
Proof.
  intros Hbody. induction items as [|item rest IH]; intros c HI.
  - by exists c.
  - rewrite forEach_cons. destruct (Hbody item c HI) as (c1 & -> & HI1).
    by apply IH.
Qed.

(** A pending field record is determined by its address and interface. *)
Lemma pending_fields_eta f :
  mac f = 0%N → port f = 0%N → pending f = true →
  EntryFieldsPending (ip f) (interfaceID f) = f.
Proof. destruct f; simpl. by intros -> -> ->. Qed.

(** One more entry and one more programming transform that writes its
    node. *)
Lemma synced_insert c a e' fn :
  synced A c → A a →
  getIP e' = a → interfaceID (fields_ e') = intfID_ c →
  isProgramFn (vlanID_ c) fn →
  (∀ s, validFor A c s →
        nodeOf (vlanID_ c) a s = fields_ <$> (entries_ c !! a) →
        rewrites fn (vlanID_ c) a (Some (fields_ e')) s) →
  synced A (withUpdate fn (withEntries (<[a := e']> (entries_ c)) c)).
Proof.
  intros (Hwf & Hon & HA & Hprog & s & Hq & Hval & Hnodes) Ha Hip Hintf Hpf Hfn.
  split; [by apply cache_wf_withUpdate, cache_wf_withEntries_insert|].
  split; [|split; [|split]].
  - intros b e. simpl. rewrite lookup_insert.
    case_decide; [by intros [= <-] | apply Hon].
  - intros b e. simpl. rewrite lookup_insert.
    case_decide; [intros _; by subst b | apply HA].
  - unfold programsOnly. simpl. apply Forall_app. split; [done|].
    by apply Forall_singleton.
  - destruct (Hfn s Hval (Hnodes a)) as (ch & s' & Happ & Hn & Hfr & Hv & Hat).
    exists s'. simpl. rewrite applyUpdates_snoc, Hq, Happ.
    split; [done|]. split.
    + split; [done|]. intros b Hb. unfold isIpAttached. rewrite Hat.
      by apply Hval.
    + intros b. rewrite lookup_insert. case_decide as Hb.
      * by subst b.
      * rewrite Hfr by done. apply Hnodes.
Qed.

Lemma programEntry_rewrites c a e' old s :
  validFor A c s → A a →
  getIP e' = a → interfaceID (fields_ e') = intfID_ c → isPending e' = false →
  nodeOf (vlanID_ c) a s = fields_ <$> old →
  (∀ e, old = Some e → getIP e = a) →
  rewrites (programEntry_updateFn (fields_ e') (vlanID_ c)) (vlanID_ c) a
    (Some (fields_ e')) s.
Proof.
  intros [Hv Hat] Ha Hip Hintf Hp Hn Hold. unfold getIP in Hip.
  destruct (programEntry_apply (fields_ e') (vlanID_ c) s)
    as (ch & s' & Happ & Hn' & Hfr & Hv' & Hat' & _); try done.
  - rewrite Hintf, Hip. by apply Hat.
  - rewrite Hip, Hn. intros n Hsome. destruct old as [e|]; [|done].
    injection Hsome as <-. exact (Hold e eq_refl).
  - exists ch, s'. rewrite Hip in Hn', Hfr. done.
Qed.

Lemma programPendingEntry_rewrites c a e' force s :
  validFor A c s → A a →
  getIP e' = a → interfaceID (fields_ e') = intfID_ c →
  mac (fields_ e') = 0%N → port (fields_ e') = 0%N → isPending e' = true →
  force = true ∨ nodeOf (vlanID_ c) a s = None →
  rewrites (programPendingEntry_updateFn (fields_ e') (vlanID_ c) force)
    (vlanID_ c) a (Some (fields_ e')) s.
Proof.
  intros [Hv Hat] Ha Hip Hintf Hm Hpo Hp Hf. unfold getIP in Hip.
  destruct (programPendingEntry_apply (fields_ e') (vlanID_ c) force s)
    as (s' & Happ & Hn' & Hfr & Hv' & Hat'); try done.
  - rewrite Hintf, Hip. by apply Hat.
  - by rewrite Hip.
  - exists true, s'. rewrite pending_fields_eta in Hn' by done.
    rewrite Hip in Hn', Hfr. done.
Qed.

Lemma refreshed_interface c e f state :
  interfaceID (fields_ e) = intfID_ c → interfaceID f = intfID_ c →
  interfaceID (fields_ (refreshed e f state)) = intfID_ c.
Proof. intros He Hf. unfold refreshed. by destruct (fieldsMatch e f). Qed.

Lemma setEntry_keeps_synced a m p state :
  A a → keeps (synced A) (setEntry a m p state).
Proof.
  intros Ha c Hs. pose proof Hs as (Hwf & Hon & _).
  set (F := EntryFields a m p (intfID_ c)).
  destruct (entries_ c !! a) as [e|] eqn:He.
  - rewrite (setEntry_found _ _ _ _ _ _ He). eexists; split; [done|]. fold F.
    assert (getIP (refreshed e F state) = a) as Hip
      by (apply (refreshed_ip e F); by apply Hwf).
    assert (interfaceID (fields_ (refreshed e F state)) = intfID_ c) as Hintf
      by (apply refreshed_interface; [by eapply Hon | done]).
    apply synced_insert; try done.
    + exists (fields_ (refreshed e F state)). by left.
    + intros s Hval Hn. apply (programEntry_rewrites c a _ (Some e)); try done.
      * apply (refreshed_fields e F state).
      * by rewrite <-He.
      * intros e0 [= <-]. by apply Hwf.
  - rewrite (setEntry_create _ _ _ _ _ He). eexists; split; [done|]. fold F.
    apply synced_insert; try done.
    + exists F. by left.
    + intros s Hval Hn.
      apply (programEntry_rewrites c a {| fields_ := F; state_ := state |} None);
        try done.
      by rewrite <-He.
Qed.

Lemma setExistingEntry_keeps_synced a m p state :
  keeps (synced A) (setExistingEntry a m p state).
Proof.
  intros c Hs. destruct (entries_ c !! a) as [e|] eqn:He.
  - rewrite (setExistingEntry_found _ _ _ _ _ _ He).
    apply setEntry_keeps_synced; [|done].
    destruct Hs as (_ & _ & HA & _). by apply (HA a e).
  - rewrite (setExistingEntry_absent _ _ _ _ _ He). by exists c.
Qed.

Lemma setPendingEntry_keeps_synced a force :
  A a → keeps (synced A) (setPendingEntry a force).
Proof.
  intros Ha c Hs. pose proof Hs as (Hwf & Hon & _).
  set (P := EntryFieldsPending a (intfID_ c)).
  destruct (entries_ c !! a) as [e|] eqn:He.
  - destruct force; [|rewrite (setPendingEntry_kept _ _ _ He); by exists c].
    rewrite (setPendingEntry_forced _ _ _ He). eexists; split; [done|]. fold P.
    pose proof (refreshed_fields e P INCOMPLETE) as (Hm & Hpo & Hpe).
    assert (getIP (refreshed e P INCOMPLETE) = a) as Hip
      by (apply (refreshed_ip e P); by apply Hwf).
    assert (interfaceID (fields_ (refreshed e P INCOMPLETE)) = intfID_ c) as Hintf
      by (apply refreshed_interface; [by eapply Hon | done]).
    apply synced_insert; try done.
    + exists (fields_ (refreshed e P INCOMPLETE)). right. by exists true.
    + intros s Hval Hn. apply programPendingEntry_rewrites; try done. by left.
  - rewrite (setPendingEntry_create _ _ _ He). eexists; split; [done|]. fold P.
    apply synced_insert; try done.
    + exists P. right. by exists force.
    + intros s Hval Hn.
      apply (programPendingEntry_rewrites c a {| fields_ := P; state_ := INCOMPLETE |});
        try done.
      right. by rewrite Hn, He.
Qed.

(** flushEntryBlocking on a cache in step with the tree: the queue is
    applied, the node goes, and the result tells that there was one. *)
Lemma flushEntryBlocking_synced_step a c e :
  synced A c → entries_ c !! a = Some e →
  ∃ c', flushEntryBlocking a c = Ok (true, c') ∧ synced A c' ∧
        entries_ c' = delete a (entries_ c) ∧ swUpdates (sw_ c') = [] ∧
        vlanID_ c' = vlanID_ c.
Proof.
  intros (Hwf & Hon & HA & Hprog & s & Hq & Hval & Hnodes) He.
  destruct (flushEntry_apply (vlanID_ c) a s (proj1 Hval))
    as (s' & Happ & Hn & Hfr & Hv' & Hat').
  rewrite (Hnodes a), He in Happ. simpl in Happ.
  rewrite (flushEntryBlocking_found _ _ _ He).
  unfold SwSwitch_updateStateBlocking. rewrite Hq, Happ.
  eexists; split; [done|]. split; [|done].
  split; [by apply cache_wf_withEntries_delete|]. split; [|split; [|split]].
  - intros b e0. simpl. rewrite lookup_delete. case_decide; [done | apply Hon].
  - intros b e0. simpl. rewrite lookup_delete. case_decide; [done | apply HA].
  - apply Forall_nil_2.
  - exists s'. simpl. split; [done|]. split.
    + split; [done|]. intros b Hb. unfold isIpAttached. rewrite Hat'.
      by apply Hval.
    + intros b. rewrite lookup_delete. case_decide as Hb.
      * by subst b.
      * rewrite Hfr by done. apply Hnodes.
Qed.

Lemma flushEntryBlocking_keeps_synced a :
  keeps (synced A) (do* flushEntryBlocking a in ret tt).
Proof.
  intros c Hs. unfold bind. destruct (entries_ c !! a) as [e|] eqn:He.
  - destruct (flushEntryBlocking_synced_step a c e Hs He) as (c' & -> & Hs' & _).
    by exists c'.
  - unfold flushEntryBlocking. rewrite (flushEntry_absent _ _ _ He). by exists c.
Qed.

Lemma portDown_keeps_synced p : keeps (synced A) (portDown p).
Proof.
  intros c Hs. unfold portDown.
  refine (forEach_keeps (synced A) (map_to_list (entries_ c)) _ _ c Hs).
  intros [k e0] c1 Hs1. unfold portDown_body, bind, getCacheEntry. simpl.
  destruct (entries_ c1 !! k) as [e|] eqn:He; [|by exists c1].
  destruct (negb (getPortID e =? p)%N); [by exists c1|].
  apply setPendingEntry_keeps_synced; [|done].
  destruct Hs1 as (Hwf & _ & HA & _). rewrite (Hwf k e He). by apply (HA k e).
Qed.

Lemma runTreeOp_keeps_synced op :
  opWithin A op → keeps (synced A) (runTreeOp op).
Proof.
  destruct op; simpl; intros Hop.
  - by apply setEntry_keeps_synced.
  - apply setExistingEntry_keeps_synced.
  - by apply setPendingEntry_keeps_synced.
  - apply flushEntryBlocking_keeps_synced.
  - apply portDown_keeps_synced.
Qed.

Lemma runTreeOps_keep_synced (ops : list TreeOp) c :
  Forall (opWithin A) ops → synced A c →
  ∃ c', forEach ops runTreeOp c = Ok (tt, c') ∧ synced A c'.
Proof.
  intros Hops. revert c. induction Hops as [|op rest Hop _ IH]; intros c Hs.
  - by exists c.
  - rewrite forEach_cons.
    destruct (runTreeOp_keeps_synced op Hop c Hs) as (c1 & -> & Hs1).
    by apply IH.
Qed.

End Mirror.

(** X11: the tree stays in step with the cache.  Let [A] be a set of
    addresses (those of the subnets of the interface).  Take a cache whose
    entries are stored under their own address, are on the interface of the
    cache and have their address in [A], whose queue holds only transforms
    of programEntry and programPendingEntry, and whose queued transforms
    lead to a snapshot that has the VLAN, has the addresses of [A] attached
    to the interface, and has in the table of the VLAN exactly the fields
    of the entries of the cache.  Then every script of setEntry,
    setExistingEntry, setPendingEntry, flushEntryBlocking and portDown
    whose setEntry and setPendingEntry name addresses of [A] returns, and
    leaves a cache of which the same holds. *)
Theorem tree_mirrors_cache (A : N → Prop) (ops : list TreeOp)
    (c : NeighborCacheImpl) :
  Forall (opWithin A) ops →
  synced A c →
  ∃ c', forEach ops runTreeOp c = Ok (tt, c') ∧ synced A c'.
Proof. apply runTreeOps_keep_synced. Qed.

Lemma synced_exampleCacheSynced : synced exampleSubnet exampleCacheSynced.
Proof.
  split; [by apply cache_wfb_correct|]. split; [|split; [|split]].
  - intros a e H. simpl in H. by apply lookup_singleton_Some in H as [_ <-].
  - intros a e H. simpl in H. by apply lookup_singleton_Some in H as [<- _].
  - apply Forall_nil_2.
  - exists exampleStateSubnet. split; [reflexivity|]. split.
    + split; [by eexists|]. intros a Ha. unfold isIpAttached. simpl.
      rewrite andb_true_r. by apply N.ltb_lt.
    + intros a. unfold nodeOf, getVlanIf, getNodeIf. simpl.
      rewrite lookup_singleton_eq. simpl.
      destruct (decide (a = 10%N)) as [->|Hne].
      * by rewrite !lookup_singleton_eq.
      * by rewrite !lookup_singleton_ne.
Defined.

Lemma opWithin_exampleTreeOps : Forall (opWithin exampleSubnet) exampleTreeOps.
Proof. repeat (apply Forall_cons; split; [done|]). apply Forall_nil_2. Defined.

Lemma tree_mirrors_cache_witness :
  ∃ c', forEach exampleTreeOps runTreeOp exampleCacheSynced = Ok (tt, c') ∧
        synced exampleSubnet c'.
Proof.
  apply (tree_mirrors_cache exampleSubnet exampleTreeOps exampleCacheSynced
           opWithin_exampleTreeOps synced_exampleCacheSynced).
Defined.

(** X12: on a cache in step with the tree (as in X11), flushEntryBlocking
    on an address that has an entry returns true: the queue was applied,
    the entry left the map and its node the tree, and cache and tree are in
    step again with nothing left in the queue. *)
Theorem flushEntryBlocking_synced (A : N → Prop) (c : NeighborCacheImpl)
    (a : N) (e : NeighborCacheEntry) :
  synced A c → entries_ c !! a = Some e →
  ∃ c',
    flushEntryBlocking a c = Ok (true, c') ∧
    synced A c' ∧
    entries_ c' !! a = None ∧
    swUpdates (sw_ c') = [] ∧
    nodeOf (vlanID_ c) a (swState (sw_ c')) = None.
Proof.
  intros Hs He.
  destruct (flushEntryBlocking_synced_step A a c e Hs He)
    as (c' & Hr & Hs' & Hent & Hq & Hv).
  exists c'. split; [done|]. split; [done|].
  split; [by rewrite Hent, lookup_delete_eq|]. split; [done|].
  destruct Hs' as (_ & _ & _ & _ & s & Happ & _ & Hnodes).
  rewrite Hq in Happ. injection Happ as <-.
  rewrite <-Hv, (Hnodes a), Hent, lookup_delete_eq. done.
Qed.

Lemma flushEntryBlocking_synced_witness :
  ∃ c',
    flushEntryBlocking 10 exampleCacheSynced = Ok (true, c') ∧
    synced exampleSubnet c' ∧
    entries_ c' !! 10%N = None ∧
    swUpdates (sw_ c') = [] ∧
    nodeOf 1 10 (swState (sw_ c')) = None.
Proof.
  apply (flushEntryBlocking_synced exampleSubnet exampleCacheSynced 10
           {| fields_ := EntryFields 10 5 3 7; state_ := REACHABLE |}
           synced_exampleCacheSynced).
  reflexivity.
Defined.

(** X13: repopulate of a cache without entries and without queued
    transforms, from the table the snapshot of the switch has in the VLAN
    of the cache, puts the cache in step with the tree (as in X11),
    provided the nodes of the table are stored under their own address and
    are on the interface of the cache, and their addresses are in a set
    [A] whose addresses are attached to the interface in the snapshot. *)
Theorem repopulate_mirrors_table (A : N → Prop) (c : NeighborCacheImpl)
    (vlan : Vlan) :
  entries_ c = ∅ →
  swUpdates (sw_ c) = [] →
  getVlanIf (vlanID_ c) (swState (sw_ c)) = Some vlan →
  table_wf (neighborTable vlan) →
  (∀ a f, neighborTable vlan !! a = Some f → interfaceID f = intfID_ c ∧ A a) →
  (∀ a, A a → isIpAttached a (intfID_ c) (swState (sw_ c)) = true) →
  ∃ c', repopulate (neighborTable vlan) c = Ok (tt, c') ∧ synced A c'.
Proof.
  intros Hempty Hq Hv Hwf Hintf Hat.
  destruct (repopulate_result (neighborTable vlan) c Hwf)
    as (c' & Hr & Hsw & Hvl & Hif & Hl).
  assert (∀ k, entries_ c' !! k
               = (λ f, {| fields_ := f; state_ := seeded f |})
                   <$> (neighborTable vlan !! k)) as Hl'.
  { intros k. rewrite (Hl k), Hempty, lookup_empty.
    by destruct (neighborTable vlan !! k). }
  exists c'. split; [done|]. split; [|split; [|split; [|split]]].
  - intros a e. rewrite (Hl' a).
    destruct (neighborTable vlan !! a) as [f|] eqn:Hf; [|done].
    intros [= <-]. by apply Hwf.
  - intros a e. rewrite (Hl' a), Hif.
    destruct (neighborTable vlan !! a) as [f|] eqn:Hf; [|done].
    intros [= <-]. by apply (Hintf a).
  - intros a e. rewrite (Hl' a).
    destruct (neighborTable vlan !! a) as [f|] eqn:Hf; [|done].
    intros _. by apply (Hintf a f).
  - unfold programsOnly. rewrite Hsw, Hq. apply Forall_nil_2.
  - exists (swState (sw_ c)). unfold validFor. rewrite Hsw, Hq, Hvl, Hif.
    split; [done|]. split; [split; [rewrite Hv; eauto | done]|].
    intros a. unfold nodeOf, getNodeIf. rewrite Hv, (Hl' a).
    by destruct (neighborTable vlan !! a).
Qed.

Lemma repopulate_mirrors_table_witness :
  ∃ c', repopulate {[ 10%N := EntryFields 10 5 3 7 ]} exampleCacheBoot = Ok (tt, c') ∧
        synced exampleSubnet c'.
Proof.
  refine (repopulate_mirrors_table exampleSubnet exampleCacheBoot
            {| neighborTable := {[ 10%N := EntryFields 10 5 3 7 ]} |}
            eq_refl eq_refl eq_refl _ _ _).
  - intros a f H. simpl in H. by apply lookup_singleton_Some in H as [<- <-].
  - intros a f H. simpl in H. by apply lookup_singleton_Some in H as [<- <-].
  - intros a Ha. unfold isIpAttached. simpl. rewrite andb_true_r.
    by apply N.ltb_lt.
Defined.

(** X7: on an address without entry, when the queue leads to a snapshot
    that has the VLAN, has this address attached to the interface and has
    no node for it, setEntry followed by flushEntryBlocking returns true,
    gives back the cache map it started from, leaves the queue empty and
    the switch with exactly the snapshot the queue led to; a second
    flushEntryBlocking returns false and changes nothing. *)
Theorem setEntry_then_flushEntryBlocking (c : NeighborCacheImpl) (a m p : N)
    (st : NeighborEntryState) (s1 : SwitchState) :
  entries_ c !! a = None →
  applyUpdates (swUpdates (sw_ c)) (swState (sw_ c)) = Ok s1 →
  is_Some (getVlanIf (vlanID_ c) s1) →
  isIpAttached a (intfID_ c) s1 = true →
  nodeOf (vlanID_ c) a s1 = None →
  ∃ c1 c2,
    setEntry a m p st c = Ok (tt, c1) ∧
    flushEntryBlocking a c1 = Ok (true, c2) ∧
    entries_ c2 = entries_ c ∧
    swUpdates (sw_ c2) = [] ∧
    swState (sw_ c2) = s1 ∧
    flushEntryBlocking a c2 = Ok (false, c2).
Proof.
  intros He Hq Hv Hat Hn.
  set (f := EntryFields a m p (intfID_ c)).
  set (c1 := withUpdate (programEntry_updateFn f (vlanID_ c))
               (withEntries (<[a := {| fields_ := f; state_ := st |}]> (entries_ c)) c)).
  assert (entries_ c1 !! a = Some {| fields_ := f; state_ := st |}) as He1
    by (simpl; apply lookup_insert_eq).
  destruct (programEntry_then_flush_restores_aux f (vlanID_ c) s1 Hv Hat Hn)
    as (s2 & H1 & H2 & _).
  change (ip f) with a in H2.
  set (c2 := {| entries_ := delete a (entries_ c1); vlanID_ := vlanID_ c;
                intfID_ := intfID_ c;
                sw_ := {| swState := s1; swUpdates := [] |} |}).
  assert (flushEntryBlocking a c1 = Ok (true, c2)) as Hfl.
  { rewrite (flushEntryBlocking_found _ _ _ He1).
    unfold SwSwitch_updateStateBlocking. simpl.
    rewrite applyUpdates_snoc, Hq. unfold applyUpdate. fold f.
    by rewrite H1, H2. }
  exists c1, c2. split; [by apply setEntry_create|]. split; [done|].
  split; [simpl; by apply delete_insert_id|]. split; [done|]. split; [done|].
  unfold flushEntryBlocking. apply flushEntry_absent. simpl.
  apply lookup_delete_eq.
Qed.

Lemma setEntry_then_flushEntryBlocking_witness :
  ∃ c1 c2,
    setEntry 11 6 3 REACHABLE exampleCacheSynced = Ok (tt, c1) ∧
    flushEntryBlocking 11 c1 = Ok (true, c2) ∧
    entries_ c2 = entries_ exampleCacheSynced ∧
    swUpdates (sw_ c2) = [] ∧
    swState (sw_ c2) = exampleStateSubnet ∧
    flushEntryBlocking 11 c2 = Ok (false, c2).
Proof.
  apply (setEntry_then_flushEntryBlocking exampleCacheSynced 11 6 3 REACHABLE
           exampleStateSubnet); try reflexivity.
  by eexists.
Defined.



(** ** Results of the flushes, redundant versions *)

(** X15: flushEntry on an address with an entry, when the queue leads to a
    snapshot that has the VLAN: the blocking variant returns whether the
    table had a node for the address, and leaves the switch with an empty
    queue and a snapshot without the node; the fire-and-forget variant
    returns true whether the table has a node or not. *)
Theorem flushEntry_results_with_vlan (c : NeighborCacheImpl) (a : N)
    (e : NeighborCacheEntry) (state1 : SwitchState) (vlan : Vlan) :
  entries_ c !! a = Some e →
  applyUpdates (swUpdates (sw_ c)) (swState (sw_ c)) = Ok state1 →
  getVlanIf (vlanID_ c) state1 = Some vlan →
  (∃ c',
     flushEntryBlocking a c
     = Ok (bool_decide (is_Some (neighborTable vlan !! a)), c') ∧
     swUpdates (sw_ c') = [] ∧
     nodeOf (vlanID_ c) a (swState (sw_ c')) = None ∧
     (neighborTable vlan !! a = None → swState (sw_ c') = state1)) ∧
  (∃ c', flushEntry a false c = Ok (true, c')).
Proof.
  intros He Hq Hv. split.
  - rewrite (flushEntryBlocking_found _ _ _ He).
    unfold SwSwitch_updateStateBlocking, applyUpdate.
    rewrite Hq, (flushEntry_updateFn_vlan _ _ _ _ Hv).
    destruct (neighborTable vlan !! a) as [node|] eqn:Hn; simpl;
      (eexists; split; [reflexivity|]); simpl; (split; [done|]).
    + split; [|done]. rewrite nodeOf_modify. apply lookup_delete_eq.
    + split; [|done]. unfold nodeOf. by rewrite Hv.
  - rewrite (flushEntry_found _ _ _ He). eauto.
Qed.

Lemma flushEntry_results_with_vlan_witness :
  (∃ c', flushEntryBlocking 10 exampleCache1 = Ok (false, c') ∧
         swUpdates (sw_ c') = [] ∧
         nodeOf 1 10 (swState (sw_ c')) = None ∧
         swState (sw_ c') = exampleState) ∧
  (∃ c', flushEntry 10 false exampleCache1 = Ok (true, c')).
Proof.
  destruct (flushEntry_results_with_vlan exampleCache1 10
              {| fields_ := EntryFields 10 5 3 7; state_ := REACHABLE |}
              exampleState {| neighborTable := ∅ |} eq_refl eq_refl eq_refl)
    as [(c' & Hr & Hq & Hn & Hs) Hnb].
  split; [|exact Hnb].
  exists c'. split; [exact Hr|]. split; [exact Hq|]. split; [exact Hn|].
  apply Hs. reflexivity.
Defined.

(** X16: on a snapshot that passes the validation the forced transform of
    programPendingEntry never signals no-op; when the node of the address
    is the pending node already, the snapshot it returns is the one it was
    given. *)
Theorem programPendingEntry_forced_always_new (f : NeighborEntryFields)
    (vlanID : N) (s : SwitchState) :
  ncachehelpers.checkVlanAndIntf s f vlanID = true →
  ∃ s',
    programPendingEntry_updateFn f vlanID true s = Ok (Some s') ∧
    (nodeOf vlanID (ip f) s = Some (EntryFieldsPending (ip f) (interfaceID f)) →
     s' = s).
Proof.
  intros Hc. unfold programPendingEntry_updateFn, nodeOf. rewrite Hc. simpl.
  apply checkVlanAndIntf_spec in Hc as [[vlan Hv] _]. rewrite Hv.
  destruct (getNodeIf (ip f) (neighborTable vlan)) as [n|] eqn:Hn;
    (eexists; split; [done|]); [|done].
  intros [= ->]. unfold getNodeIf in Hn.
  unfold modify, addPendingEntry, removeEntry_table.
  rewrite insert_delete_eq, (insert_id _ _ _ Hn).
  destruct s as [vs at_]; simpl in *. f_equal.
  apply insert_id. unfold getVlanIf in Hv; simpl in Hv. by destruct vlan.
Qed.

Lemma programPendingEntry_forced_always_new_witness :
  ∃ s',
    programPendingEntry_updateFn (EntryFieldsPending 10 7) 1 true exampleState
    = Ok (Some s') ∧
    programPendingEntry_updateFn (EntryFieldsPending 10 7) 1 true s' = Ok (Some s').
Proof.
  destruct (programPendingEntry_forced_always_new (EntryFieldsPending 10 7) 1
              exampleState eq_refl) as (s' & Hfn & _).
  exists s'. split; [exact Hfn|].
  assert (s' = modify 1 {[ 10%N := EntryFieldsPending 10 7 ]} exampleState) as ->.
  { assert (Ok (Some s')
            = Ok (Some (modify 1 {[ 10%N := EntryFieldsPending 10 7 ]} exampleState)))
      as Heq by (rewrite <-Hfn; reflexivity).
    by injection Heq. }
  destruct (programPendingEntry_forced_always_new (EntryFieldsPending 10 7) 1
              (modify 1 {[ 10%N := EntryFieldsPending 10 7 ]} exampleState) eq_refl)
    as (s2 & Hfn2 & Hsame).
  rewrite Hfn2. do 2 f_equal. apply Hsame. reflexivity.
Defined.

(** ** What the loops add *)

(** X17: on a cache whose entries are stored under their own address,
    [portDown p] keeps the set of addresses of the cache and submits one
    transform for each entry that is on port [p], and none else. *)
Theorem portDown_one_transform_each (c : NeighborCacheImpl) (p : N) :
  cache_wf c →
  ∃ c',
    portDown p c = Ok (tt, c') ∧
    dom (entries_ c') = dom (entries_ c) ∧
    length (swUpdates (sw_ c'))
    = length (swUpdates (sw_ c))
      + length (filter (onPort p) (map_to_list (entries_ c))).
Proof.
  intros Hwf.
  destruct (portDown_result p c Hwf) as (c' & Hr & _ & _ & _ & Hu & Hl).
  exists c'. split; [done|]. split.
  - apply set_eq. intros k. rewrite !elem_of_dom, (Hl k).
    destruct (entries_ c !! k); split; intros [? ?]; eauto; done.
  - by rewrite Hu, length_app, length_fmap.
Qed.

Lemma portDown_one_transform_each_witness :
  ∃ c',
    portDown 3 exampleCache2 = Ok (tt, c') ∧
    dom (entries_ c') = dom (entries_ exampleCache2) ∧
    length (swUpdates (sw_ c')) = 1.
Proof.
  apply (portDown_one_transform_each exampleCache2 3
           (cache_wfb_correct exampleCache2 eq_refl)).
Defined.

(** X18: on a table whose nodes are stored under their own address,
    repopulate leaves in the cache the addresses it had and those of the
    table, and no other. *)
Theorem repopulate_addresses (table : gmap N NeighborEntryFields)
    (c : NeighborCacheImpl) :
  table_wf table →
  ∃ c', repopulate table c = Ok (tt, c') ∧
        dom (entries_ c') = dom (entries_ c) ∪ dom table.
Proof.
  intros Hwf.
  destruct (repopulate_result table c Hwf) as (c' & Hr & _ & _ & _ & Hl).
  exists c'. split; [done|].
  apply set_eq. intros k. rewrite elem_of_union, !elem_of_dom, (Hl k).
  destruct (table !! k) as [f|]; split.
  - intros _. right. eauto.
  - intros _. eauto.
  - intros ?. by left.
  - intros [?|[? ?]]; done.
Qed.

Lemma repopulate_addresses_witness :
  ∃ c', repopulate exampleTable exampleCache1 = Ok (tt, c') ∧
        dom (entries_ c') = dom (entries_ exampleCache1) ∪ dom exampleTable.
Proof. apply (repopulate_addresses exampleTable exampleCache1 table_wf_exampleTable). Defined.

(** ** What the public operations never do *)

Section Grows.

Implicit Types (c : NeighborCacheImpl) (e : NeighborCacheEntry).

Lemma grows_refl c : grows c c.
Proof. by repeat split. Qed.

Lemma grows_trans c1 c2 c3 : grows c1 c2 → grows c2 c3 → grows c1 c3.
Proof.
  intros (Hd & Hq & Hs & Hv & Hi) (Hd' & Hq' & Hs' & Hv' & Hi').
  repeat split; try congruence.
  - set_solver.
  - by etrans.
Qed.

Lemma grows_insert c a e :
  grows c (withEntries (<[a := e]> (entries_ c)) c).
Proof. repeat split; try done. simpl. rewrite dom_insert_L. set_solver. Qed.

Lemma grows_withUpdate c fn : grows c (withUpdate fn c).
Proof. repeat split; try done. simpl. by apply prefix_app_r. Qed.

(** An operation that returns on every cache and only lets it grow. *)
Lemma forEach_grows {A} (items : list A) (body : A → M unit) :
  (∀ item c, ∃ c', body item c = Ok (tt, c') ∧ grows c c') →
  ∀ c, ∃ c', forEach items body c = Ok (tt, c') ∧ grows c c'.
Proof.
  intros Hbody. induction items as [|item rest IH]; intros c.
  - exists c. split; [done | apply grows_refl].
  - rewrite forEach_cons. destruct (Hbody item c) as (c1 & -> & H1).
    destruct (IH c1) as (c' & -> & H2). exists c'. split; [done|].
    by apply grows_trans with c1.
Qed.

Lemma setEntry_grows a m p state c :
  ∃ c', setEntry a m p state c = Ok (tt, c') ∧ grows c c'.
Proof.
  destruct (entries_ c !! a) as [e|] eqn:He.
  - rewrite (setEntry_found _ _ _ _ _ _ He). eexists; split; [done|].
    eapply grows_trans; [apply grows_insert | apply grows_withUpdate].
  - rewrite (setEntry_create _ _ _ _ _ He). eexists; split; [done|].
    eapply grows_trans; [apply grows_insert | apply grows_withUpdate].
Qed.

Lemma setPendingEntry_grows a force c :
  ∃ c', setPendingEntry a force c = Ok (tt, c') ∧ grows c c'.
Proof.
  destruct (entries_ c !! a) as [e|] eqn:He.
  - destruct force.
    + rewrite (setPendingEntry_forced _ _ _ He). eexists; split; [done|].
      eapply grows_trans; [apply grows_insert | apply grows_withUpdate].
    + rewrite (setPendingEntry_kept _ _ _ He). exists c.
      split; [done | apply grows_refl].
  - rewrite (setPendingEntry_create _ _ _ He). eexists; split; [done|].
    eapply grows_trans; [apply grows_insert | apply grows_withUpdate].
Qed.

Lemma runOp_grows op c : ∃ c', runOp op c = Ok (tt, c') ∧ grows c c'.
Proof.
  destruct op; simpl.
  - apply setEntry_grows.
  - destruct (entries_ c !! a) as [e|] eqn:He.
    + rewrite (setExistingEntry_found _ _ _ _ _ _ He). apply setEntry_grows.
    + rewrite (setExistingEntry_absent _ _ _ _ _ He). exists c.
      split; [done | apply grows_refl].
  - apply setPendingEntry_grows.
  - apply forEach_grows. intros [k f] c1. unfold repopulate_body, bind. simpl.
    rewrite setEntryInternal_stored. eexists; split; [done|].
    apply grows_insert.
  - unfold portDown. apply forEach_grows. intros [k e0] c1.
    unfold portDown_body, bind, getCacheEntry. simpl.
    destruct (entries_ c1 !! k) as [e|];
      [|exists c1; split; [done | apply grows_refl]].
    destruct (negb (getPortID e =? p)%N);
      [exists c1; split; [done | apply grows_refl]|].
    apply setPendingEntry_grows.
Qed.

End Grows.

(** X19: every script of setEntry, setExistingEntry, setPendingEntry,
    repopulate and portDown returns on every cache, and from the cache it
    started on to the cache it leaves no address left the map, the queue of
    transforms was only extended, and the snapshot of the switch, the VLAN
    and the interface of the cache are the same: these operations never
    remove an entry and never apply a transform themselves. *)
Theorem public_operations_only_grow (ops : list Op) (c : NeighborCacheImpl) :
  ∃ c',
    runOps ops c = Ok (tt, c') ∧
    dom (entries_ c) ⊆ dom (entries_ c') ∧
    swUpdates (sw_ c) `prefix_of` swUpdates (sw_ c') ∧
    swState (sw_ c') = swState (sw_ c) ∧
    vlanID_ c' = vlanID_ c ∧ intfID_ c' = intfID_ c.
Proof. apply (forEach_grows ops runOp runOp_grows c). Qed.
